(** * PicoTorrent: the main frame's intake, selection and disk-space logic

    A shallow embedding of [MainFrame] (mainframe.cpp): the event
    handlers bound in the constructor, [AddTorrents] and [CheckDiskSpace].
    Calls to collaborators (status bar, list model, details view, session,
    task bar icon, dialogs) are recorded as a list of [Call]s in program
    order; the frame's own fields are threaded as an explicit state. Log
    lines are left out, and the string conversions of [Utils] are taken
    as the identity. *)

From Stdlib Require Import ZArith NArith List Bool Lia Ascii String.
From Stdlib Require Import Floats.SpecFloat.
From stdpp Require Import base gmap strings list fin_maps.

Local Open Scope Z_scope.


(** ** libtorrent data, as far as the frame reads and writes it *)

Module lt.

(** A [digest32<N>]: the digest as a number (all-zero digest = 0). *)
Definition sha1_hash := N.
Definition sha256_hash := N.

Definition is_all_zeros (h : N) : bool := N.eqb h 0.

Record info_hash_t := { v1 : sha1_hash; v2 : sha256_hash }.

Definition has_v1 (h : info_hash_t) : bool := negb (is_all_zeros (v1 h)).
Definition has_v2 (h : info_hash_t) : bool := negb (is_all_zeros (v2 h)).

#[global] Instance info_hash_eq_dec : EqDecision info_hash_t.
Proof. solve_decision. Defined.

#[global] Instance info_hash_countable : Countable info_hash_t.
Proof.
  apply (inj_countable' (fun h => (v1 h, v2 h))
                        (fun p => {| v1 := fst p; v2 := snd p |})).
  intros []; reflexivity.
Defined.

(** [torrent_info]: the full description of a torrent. *)
Record torrent_info := { ti_name : string; ti_info_hashes : info_hash_t }.

(** [torrent_flags::duplicate_is_error]. *)
Definition duplicate_is_error : N := N.shiftl 1 6.

End lt.

(** ** PicoTorrent's own records *)

Module AddParams.
(** [BitTorrent::AddParams], the frame's per-torrent user data. *)
Record t := { labelId : Z }.
Definition set_labelId (i : Z) (_ : t) : t := {| labelId := i |}.
End AddParams.

Module Params.
(** [lt::add_torrent_params]; [userdata] holds the [AddParams] object the
    client data pointer refers to. *)
Record t := {
  flags : N;
  save_path : string;
  userdata : option AddParams.t;
  info_hashes : lt.info_hash_t;
  ti : option lt.torrent_info;
  name : string
}.

Definition set_flags (f : N) (p : t) : t :=
  {| flags := f; save_path := save_path p; userdata := userdata p;
     info_hashes := info_hashes p; ti := ti p; name := name p |}.
Definition set_save_path (s : string) (p : t) : t :=
  {| flags := flags p; save_path := s; userdata := userdata p;
     info_hashes := info_hashes p; ti := ti p; name := name p |}.
Definition set_userdata (u : option AddParams.t) (p : t) : t :=
  {| flags := flags p; save_path := save_path p; userdata := u;
     info_hashes := info_hashes p; ti := ti p; name := name p |}.
End Params.

Module Label.
(** [Core::Configuration::Label]. *)
Record t := {
  id : Z;
  name : string;
  color : string;
  savePath : string;
  savePathEnabled : bool;
  applyFilter : string;
  applyFilterEnabled : bool
}.
End Label.

Module Cfg.
(** The configuration keys the frame reads. *)
Record t := {
  default_save_path : string;
  skip_add_torrent_dialog : bool;
  pause_on_low_disk_space : bool;
  pause_on_low_disk_space_limit : Z;
  GetLabels : list Label.t
}.

Definition set_labels (labels : list Label.t) (c : t) : t :=
  {| default_save_path := default_save_path c;
     skip_add_torrent_dialog := skip_add_torrent_dialog c;
     pause_on_low_disk_space := pause_on_low_disk_space c;
     pause_on_low_disk_space_limit := pause_on_low_disk_space_limit c;
     GetLabels := labels |}.

Definition set_skip_add_torrent_dialog (skip : bool) (c : t) : t :=
  {| default_save_path := default_save_path c;
     skip_add_torrent_dialog := skip;
     pause_on_low_disk_space := pause_on_low_disk_space c;
     pause_on_low_disk_space_limit := pause_on_low_disk_space_limit c;
     GetLabels := GetLabels c |}.
End Cfg.

Module Status.
(** [BitTorrent::TorrentStatus], the fields the frame reads. *)
Record t := { infoHash : lt.info_hash_t; name : string; savePath : string }.
End Status.

Module Handle.
(** A [BitTorrent::TorrentHandle*]: the address of the object, and what
    its [InfoHash()] and [Status()] return when the handler runs. *)
Record t := { address : N; InfoHash : lt.info_hash_t; Status : Status.t }.

#[global] Instance status_eq_dec : EqDecision Status.t.
Proof. solve_decision. Defined.
#[global] Instance eq_dec : EqDecision t.
Proof. solve_decision. Defined.
End Handle.

(** ** What the frame takes from outside

    The regular-expression library, the disk query, the translator, the
    build flag [_WIN32], and two facts that are declared in the headers
    addparams.hpp and mainframe.hpp. *)

Record Externals := {
  regex : Type;
  (** [std::regex re(pattern, ECMAScript | icase)]: [None] when the
      constructor throws [std::regex_error]. *)
  regex_ctor : string -> option regex;
  (** [std::regex_search(name, re)]: [None] when the search throws
      [std::regex_error] (complexity or stack limits), else whether the
      pattern was found. *)
  regex_search : string -> regex -> option bool;
  (** [GetDiskFreeSpaceEx(path, &free, &total, ..)]: [None] when it
      returns FALSE, else (freeBytesAvailableToCaller, totalNumberOfBytes),
      both unsigned 64-bit. *)
  GetDiskFreeSpaceEx : string -> option (N * N);
  i18n : string -> string;
  WIN32 : bool;
  (** The value [new BitTorrent::AddParams()] starts with (addparams.hpp). *)
  AddParams_new : AddParams.t;
  (** The width of the signed integer [m_torrentsCount] (mainframe.hpp). *)
  count_bits : positive
}.

(** ** Exceptions *)

Inductive exception := regex_error.

Inductive outcome (A : Type) :=
| Returned (a : A)
| Thrown (e : exception).
Arguments Returned {A} a.
Arguments Thrown {A} e.

#[global] Instance outcome_ret : MRet outcome := fun A a => Returned a.
#[global] Instance outcome_bind : MBind outcome := fun A B f m =>
  match m with
  | Returned a => f a
  | Thrown e => Thrown e
  end.

(** ** Single-precision arithmetic (IEEE 754 binary32) *)

Definition float := spec_float.
Definition f32_of_Z (z : Z) : float := binary_normalize 24 128 z 0 false.
Definition f32_div (x y : float) : float := SFdiv 24 128 x y.
Definition f32_ltb (x y : float) : bool := SFltb x y.

(** [static_cast<float>] of an unsigned 64-bit integer and of an [int]. *)
Definition float_of_uint64 (n : N) : float := f32_of_Z (Z.of_N n).
Definition float_of_int (z : Z) : float := f32_of_Z z.

(** ** Signed counter arithmetic

    [wrap bits z] is the signed integer of [bits] bits that [z] is
    congruent to: [++] and [--] on the counter are taken to wrap around. *)

Definition wrap (bits : positive) (z : Z) : Z :=
  (z + 2 ^ (Z.pos bits - 1)) mod 2 ^ Z.pos bits - 2 ^ (Z.pos bits - 1).

(** ** The frame *)

Abbreviation selection_map := (gmap lt.info_hash_t Handle.t).

(** [m_addDialogs] is a set of dialog addresses; the map also keeps, for
    every address in the set, the parameters its dialog was built for. *)
Record MainFrame := {
  m_torrentsCount : Z;
  m_selection : selection_map;
  m_addDialogs : gmap N Params.t
}.

Definition set_torrentsCount (c : Z) (f : MainFrame) : MainFrame :=
  {| m_torrentsCount := c; m_selection := m_selection f;
     m_addDialogs := m_addDialogs f |}.
Definition set_selection (s : selection_map) (f : MainFrame) : MainFrame :=
  {| m_torrentsCount := m_torrentsCount f; m_selection := s;
     m_addDialogs := m_addDialogs f |}.
Definition set_addDialogs (d : gmap N Params.t) (f : MainFrame) : MainFrame :=
  {| m_torrentsCount := m_torrentsCount f; m_selection := m_selection f;
     m_addDialogs := d |}.

(** The state the constructor leaves: [m_torrentsCount(0)], empty maps. *)
Definition MainFrame_new : MainFrame :=
  {| m_torrentsCount := 0; m_selection := ∅; m_addDialogs := ∅ |}.

(** Calls the frame makes on its collaborators. *)
Inductive Call :=
| StatusBar_UpdateTorrentCount (count : Z)
| TorrentListModel_AddTorrent (torrent : Handle.t)
| TorrentListModel_RemoveTorrent (hash : lt.info_hash_t)
| TorrentListModel_UpdateTorrents (torrents : list Handle.t)
| TorrentDetails_Reset
| TorrentDetails_Refresh (torrents : selection_map)
| TorrentHandle_Pause (torrent : Handle.t)
| TaskBarIcon_ShowBalloon (title text : string)
| Session_AddTorrent (p : Params.t)
| Session_AddMetadataSearch (hashes : list lt.info_hash_t)
| AddTorrentDialog_Show (dlg : N) (param : Params.t)
| wxPostEvent (dlg : N) (evt : lt.torrent_info).

(** Events the constructor binds a handler to. *)
Inductive Event :=
| ptEVT_TORRENT_ADDED (torrent : Handle.t)
| ptEVT_TORRENT_REMOVED (hash : lt.info_hash_t)
| ptEVT_TORRENTS_UPDATED (torrents : list Handle.t)
| wxEVT_DATAVIEW_SELECTION_CHANGED (items : list Handle.t)
| ptEVT_TORRENT_METADATA_FOUND (evt : lt.torrent_info)
| wxEVT_CLOSE_WINDOW (dlg : N).

(** [std::map::insert]: an existing key keeps its value. *)
Definition std_map_insert (k : lt.info_hash_t) (v : Handle.t)
    (m : selection_map) : selection_map :=
  match m !! k with
  | Some _ => m
  | None => <[k := v]> m
  end.

Definition empty (s : string) : bool :=
  match s with
  | EmptyString => true
  | String _ _ => false
  end.

Definition size (s : string) : Z := Z.of_nat (String.length s).

(** ** CheckDiskSpace *)

(** The body of the loop over [torrents] (built under [_WIN32] only). *)
Definition CheckDiskSpace_body (X : Externals) (limit : Z)
    (torrent : Handle.t) : list Call :=
  let status := Handle.Status torrent in
  match GetDiskFreeSpaceEx X (Status.savePath status) with
  | None => []
  | Some (freeBytesAvailableToCaller, totalNumberOfBytes) =>
    let diskSpaceAvailable :=
      f32_div (float_of_uint64 freeBytesAvailableToCaller)
              (float_of_uint64 totalNumberOfBytes) in
    let diskSpaceLimit := f32_div (float_of_int limit) (f32_of_Z 100) in
    if f32_ltb diskSpaceAvailable diskSpaceLimit then
      [ TorrentHandle_Pause torrent;
        TaskBarIcon_ShowBalloon (i18n X "pause_on_low_disk_space_alert"%string)
                                (Status.name status) ]
    else []
  end.

Definition CheckDiskSpace (X : Externals) (cfg : Cfg.t)
    (torrents : list Handle.t) : list Call :=
  let shouldCheck := Cfg.pause_on_low_disk_space cfg in
  let limit := Cfg.pause_on_low_disk_space_limit cfg in
  if negb shouldCheck then []
  else if WIN32 X then flat_map (CheckDiskSpace_body X limit) torrents
  else [].

(** ** Event handlers *)

Definition on_torrent_added (X : Externals) (f : MainFrame)
    (torrent : Handle.t) : MainFrame * list Call :=
  let f := set_torrentsCount (wrap (count_bits X) (m_torrentsCount f + 1)) f in
  (f, [ StatusBar_UpdateTorrentCount (m_torrentsCount f);
        TorrentListModel_AddTorrent torrent ]).

Definition on_torrent_removed (X : Externals) (f : MainFrame)
    (hash : lt.info_hash_t) : MainFrame * list Call :=
  let f := set_torrentsCount (wrap (count_bits X) (m_torrentsCount f - 1)) f in
  let calls := [ StatusBar_UpdateTorrentCount (m_torrentsCount f);
                 TorrentListModel_RemoveTorrent hash ] in
  match m_selection f !! hash with
  | Some _ =>
    (set_selection (delete hash (m_selection f)) f,
     calls ++ [ TorrentDetails_Reset ])
  | None => (f, calls)
  end.

(** The loop that collects the updated torrents that are selected. *)
Fixpoint selectedUpdated_loop (sel : selection_map) (torrents : list Handle.t)
    (selectedUpdated : selection_map) : selection_map :=
  match torrents with
  | [] => selectedUpdated
  | torrent :: rest =>
    let infoHash := Handle.InfoHash torrent in
    match sel !! infoHash with
    | Some _ =>
      selectedUpdated_loop sel rest
        (std_map_insert infoHash torrent selectedUpdated)
    | None => selectedUpdated_loop sel rest selectedUpdated
    end
  end.

Definition on_torrents_updated (X : Externals) (cfg : Cfg.t) (f : MainFrame)
    (torrents : list Handle.t) : MainFrame * list Call :=
  let selectedUpdated := selectedUpdated_loop (m_selection f) torrents ∅ in
  (f,
   [ TorrentListModel_UpdateTorrents torrents ]
   ++ (if 0 <? Z.of_nat (base.size selectedUpdated)
       then [ TorrentDetails_Refresh selectedUpdated ] else [])
   ++ CheckDiskSpace X cfg torrents).

Definition on_selection_changed (f : MainFrame) (items : list Handle.t)
    : MainFrame * list Call :=
  let f := set_selection ∅ f in
  match items with
  | [] => (f, [ TorrentDetails_Reset ])
  | _ =>
    let sel :=
      fold_left (fun m torrent =>
                   std_map_insert (Handle.InfoHash torrent) torrent m)
                items (m_selection f) in
    (set_selection sel f, [ TorrentDetails_Refresh sel ])
  end.

(** The event is posted to every dialog of [m_addDialogs]. *)
Definition on_metadata_found (f : MainFrame) (evt : lt.torrent_info)
    : MainFrame * list Call :=
  (f, map (fun dlg => wxPostEvent dlg evt)
          (map fst (map_to_list (m_addDialogs f)))).

(** The close handler [AddTorrents] binds to each dialog. *)
Definition on_dialog_close (f : MainFrame) (dlg : N) : MainFrame * list Call :=
  (set_addDialogs (delete dlg (m_addDialogs f)) f, []).

Definition handle (X : Externals) (cfg : Cfg.t) (f : MainFrame) (e : Event)
    : MainFrame * list Call :=
  match e with
  | ptEVT_TORRENT_ADDED torrent => on_torrent_added X f torrent
  | ptEVT_TORRENT_REMOVED hash => on_torrent_removed X f hash
  | ptEVT_TORRENTS_UPDATED torrents => on_torrents_updated X cfg f torrents
  | wxEVT_DATAVIEW_SELECTION_CHANGED items => on_selection_changed f items
  | ptEVT_TORRENT_METADATA_FOUND evt => on_metadata_found f evt
  | wxEVT_CLOSE_WINDOW dlg => on_dialog_close f dlg
  end.

(** Events are handled one at a time, in arrival order. *)
Fixpoint run (X : Externals) (cfg : Cfg.t) (f : MainFrame) (es : list Event)
    : MainFrame * list Call :=
  match es with
  | [] => (f, [])
  | e :: rest =>
    let '(f1, calls1) := handle X cfg f e in
    let '(f2, calls2) := run X cfg f1 rest in
    (f2, calls1 ++ calls2)
  end.

(** ** AddTorrents *)

(** The derived name the label loop computes for [p]. *)
Definition label_match_name (p : Params.t) : string :=
  let name := ""%string in
  let name := match Params.ti p with
              | Some ti => lt.ti_name ti
              | None => name
              end in
  if 0 <? size (Params.name p) then Params.name p else name.

(** The inner loop: "match any label that has an apply filter". [continue]
    goes on with the rest of the labels, [break] returns, and both the
    constructor of [std::regex] and the search may throw. *)
Fixpoint match_labels (X : Externals) (labels : list Label.t) (p : Params.t)
    (our : AddParams.t) : outcome (Params.t * AddParams.t) :=
  match labels with
  | [] => Returned (p, our)
  | label :: rest =>
    if negb (Label.applyFilterEnabled label) || empty (Label.applyFilter label)
    then match_labels X rest p our
    else
      let name := label_match_name p in
      if empty name then match_labels X rest p our
      else
        match regex_ctor X (Label.applyFilter label) with
        | None => Thrown regex_error
        | Some re =>
          match regex_search X name re with
          | None => Thrown regex_error
          | Some true =>
            let our := AddParams.set_labelId (Label.id label) our in
            let p :=
              if (0 <? size (Label.savePath label))
                 && Label.savePathEnabled label
              then Params.set_save_path (Label.savePath label) p
              else p in
            Returned (p, our)
          | Some false => match_labels X rest p our
          end
        end
  end.

(** "If we have a param with an info hash and no torrent info, let the
    session find metadata for us". *)
Definition wants_metadata (p : Params.t) : bool :=
  let ih := Params.info_hashes p in
  ((lt.has_v1 ih && negb (lt.is_all_zeros (lt.v1 ih)))
   || (lt.has_v2 ih && negb (lt.is_all_zeros (lt.v2 ih))))
  && negb (bool_decide (is_Some (Params.ti p))).

(** The first loop over [params]: defaults, pending hashes, labels. The
    vector is updated in place; [hashes] grows by [push_back]. [userdata]
    points to [our], so it shows the label the inner loop stored. *)
Fixpoint set_defaults (X : Externals) (cfg : Cfg.t) (labels : list Label.t)
    (params : list Params.t) (hashes : list lt.info_hash_t)
    : outcome (list Params.t * list lt.info_hash_t) :=
  match params with
  | [] => Returned ([], hashes)
  | p :: rest =>
    let our := AddParams_new X in
    let p := Params.set_flags (N.lor (Params.flags p) lt.duplicate_is_error) p in
    let p := Params.set_save_path (Cfg.default_save_path cfg) p in
    let p := Params.set_userdata (Some our) p in
    let hashes := if wants_metadata p
                  then hashes ++ [Params.info_hashes p] else hashes in
    '(p, our) ← match_labels X labels p our;
    let p := Params.set_userdata (Some our) p in
    '(ps, hashes) ← set_defaults X cfg labels rest hashes;
    Returned (p :: ps, hashes)
  end.

(** The last loop: one dialog per parameter, shown and remembered. [new]
    yields an address that no live dialog has. *)
Fixpoint show_dialogs (f : MainFrame) (params : list Params.t)
    : MainFrame * list Call :=
  match params with
  | [] => (f, [])
  | param :: rest =>
    let dlg := fresh (dom (m_addDialogs f)) in
    let f := set_addDialogs (<[dlg := param]> (m_addDialogs f)) f in
    let '(f, calls) := show_dialogs f rest in
    (f, AddTorrentDialog_Show dlg param :: calls)
  end.

(** What a call of [AddTorrents] leaves: the frame, the caller's vector as
    updated in place, and the calls made. *)
Record Added := {
  frame : MainFrame;
  params_out : list Params.t;
  hashes_out : list lt.info_hash_t;
  calls_out : list Call
}.

Definition AddTorrents (X : Externals) (cfg : Cfg.t) (f : MainFrame)
    (params : list Params.t) : outcome Added :=
  match params with
  | [] => Returned {| frame := f; params_out := []; hashes_out := [];
                      calls_out := [] |}
  | _ =>
    let labels := Cfg.GetLabels cfg in
    '(params, hashes) ← set_defaults X cfg labels params [];
    if Cfg.skip_add_torrent_dialog cfg then
      Returned {| frame := f; params_out := params; hashes_out := hashes;
                  calls_out := map Session_AddTorrent params |}
    else
      let '(f, calls) := show_dialogs f params in
      Returned {| frame := f; params_out := params; hashes_out := hashes;
                  calls_out := calls ++ [ Session_AddMetadataSearch hashes ] |}
  end.

(** ** A concrete environment for examples

    The regular expressions of the examples are taken from the literal
    fragment: a pattern without metacharacters is found by a
    case-insensitive substring search. A pattern with a metacharacter is
    outside the fragment; the only one used below is the single opening
    parenthesis, an unclosed group, which [std::regex] rejects. *)

Module Sample.

Local Open Scope string_scope.

Definition lower (c : ascii) : ascii :=
  let n := nat_of_ascii c in
  if (Nat.leb 65 n && Nat.leb n 90)%bool then ascii_of_nat (n + 32) else c.

Definition metachars : list ascii :=
  list_ascii_of_string "^$\.*+?()[]{}|".

Definition literal (c : ascii) : bool :=
  negb (existsb (Ascii.eqb c) metachars).

Fixpoint prefix_icase (pat s : string) : bool :=
  match pat, s with
  | EmptyString, _ => true
  | String a pat', String b s' =>
    Ascii.eqb (lower a) (lower b) && prefix_icase pat' s'
  | String _ _, EmptyString => false
  end.

Fixpoint search_icase (pat s : string) : bool :=
  prefix_icase pat s ||
  match s with
  | EmptyString => false
  | String _ s' => search_icase pat s'
  end.

Definition ctor (pat : string) : option string :=
  if forallb literal (list_ascii_of_string pat) then Some pat else None.

(** Three volumes: one below the limit of 50, one at it, one reporting no
    bytes at all; the query fails for any other path. *)
Definition disk (path : string) : option (N * N) :=
  if String.eqb path "D:/low" then Some (49%N, 100%N)
  else if String.eqb path "D:/half" then Some (50%N, 100%N)
  else if String.eqb path "D:/none" then Some (0%N, 0%N)
  else None.

Definition X : Externals :=
  {| regex := string;
     regex_ctor := ctor;
     regex_search := fun name re => Some (search_icase re name);
     GetDiskFreeSpaceEx := disk;
     i18n := fun key => key;
     WIN32 := true;
     AddParams_new := {| AddParams.labelId := -1 |};
     count_bits := 64 |}.

Definition cfg : Cfg.t :=
  {| Cfg.default_save_path := "C:/Downloads";
     Cfg.skip_add_torrent_dialog := false;
     Cfg.pause_on_low_disk_space := true;
     Cfg.pause_on_low_disk_space_limit := 50;
     Cfg.GetLabels := [] |}.

Definition H1 : lt.info_hash_t := {| lt.v1 := 1%N; lt.v2 := 0%N |}.
Definition H2 : lt.info_hash_t := {| lt.v1 := 2%N; lt.v2 := 0%N |}.

Definition torrent (addr : N) (h : lt.info_hash_t) (name path : string)
    : Handle.t :=
  {| Handle.address := addr; Handle.InfoHash := h;
     Handle.Status := {| Status.infoHash := h; Status.name := name;
                         Status.savePath := path |} |}.

(** A magnet link's parameters: a hash, a name, no torrent info. *)
Definition magnet (h : lt.info_hash_t) (name : string) : Params.t :=
  {| Params.flags := 0%N; Params.save_path := ""; Params.userdata := None;
     Params.info_hashes := h; Params.ti := None; Params.name := name |}.

(** A torrent file's parameters: the torrent info, its hash. *)
Definition file (h : lt.info_hash_t) (name : string) : Params.t :=
  {| Params.flags := 0%N; Params.save_path := ""; Params.userdata := None;
     Params.info_hashes := h;
     Params.ti := Some {| lt.ti_name := name; lt.ti_info_hashes := h |};
     Params.name := "" |}.

Definition label (id : Z) (filter path : string) : Label.t :=
  {| Label.id := id; Label.name := filter; Label.color := "";
     Label.savePath := path; Label.savePathEnabled := true;
     Label.applyFilter := filter; Label.applyFilterEnabled := true |}.

End Sample.

(** ** Notions used in the statements *)

(** Not negative: a zero, a finite number or an infinity carries the
    positive sign. *)
Definition nonneg (x : float) : Prop :=
  match x with
  | S754_zero s | S754_infinity s | S754_finite s _ _ => s = false
  | S754_nan => True
  end.

(** The test of the loop body, on its own. *)
Definition low_disk_space (X : Externals) (limit : Z) (torrent : Handle.t)
    : bool :=
  match GetDiskFreeSpaceEx X (Status.savePath (Handle.Status torrent)) with
  | None => false
  | Some (free, total) =>
    f32_ltb (f32_div (float_of_uint64 free) (float_of_uint64 total))
            (f32_div (float_of_int limit) (f32_of_Z 100))
  end.

Definition balloon (X : Externals) (torrent : Handle.t) : Call :=
  TaskBarIcon_ShowBalloon (i18n X "pause_on_low_disk_space_alert"%string)
                          (Status.name (Handle.Status torrent)).

Definition is_governor_call (c : Call) : bool :=
  match c with
  | TorrentHandle_Pause _ | TaskBarIcon_ShowBalloon _ _ => true
  | _ => false
  end.

(** The two ratios [CheckDiskSpace] compares, as it computes them. *)
Definition available_ratio (free total : N) : float :=
  f32_div (float_of_uint64 free) (float_of_uint64 total).

Definition limit_ratio (limit : Z) : float :=
  f32_div (float_of_int limit) (f32_of_Z 100).

(** The body of the loop with the division that produces the available
    ratio taken as a parameter: [CheckDiskSpace_body] is this body at
    [f32_div]. *)
Definition CheckDiskSpace_body_with (divide : float -> float -> float)
    (X : Externals) (limit : Z) (torrent : Handle.t) : list Call :=
  let status := Handle.Status torrent in
  match GetDiskFreeSpaceEx X (Status.savePath status) with
  | None => []
  | Some (freeBytesAvailableToCaller, totalNumberOfBytes) =>
    let diskSpaceAvailable :=
      divide (float_of_uint64 freeBytesAvailableToCaller)
             (float_of_uint64 totalNumberOfBytes) in
    let diskSpaceLimit := f32_div (float_of_int limit) (f32_of_Z 100) in
    if f32_ltb diskSpaceAvailable diskSpaceLimit then
      [ TorrentHandle_Pause torrent;
        TaskBarIcon_ShowBalloon (i18n X "pause_on_low_disk_space_alert"%string)
                                (Status.name status) ]
    else []
  end.

(** The evaluation passes of a sequence of "updated" batches. *)
Definition passes (batches : list (list Handle.t)) : list Event :=
  map ptEVT_TORRENTS_UPDATED batches.

(** Counting the engine's "added" and "removed" events of a sequence. *)
Definition is_added (e : Event) : bool :=
  match e with ptEVT_TORRENT_ADDED _ => true | _ => false end.

Definition is_removed (e : Event) : bool :=
  match e with ptEVT_TORRENT_REMOVED _ => true | _ => false end.

Definition added (es : list Event) : Z :=
  Z.of_nat (length (List.filter is_added es)).

Definition removed (es : list Event) : Z :=
  Z.of_nat (length (List.filter is_removed es)).

(** The first handle of a batch that has the given hash. *)
Definition first_with_hash (h : lt.info_hash_t) (ts : list Handle.t)
    : option Handle.t :=
  List.find (fun t => bool_decide (Handle.InfoHash t = h)) ts.

(** The label matcher in the words of its contract: a label applies to a
    name when its filter is enabled, not empty, a valid pattern, and found
    in the name by a search that completes; the first label that applies
    wins, and an empty name is never matched. *)
Definition label_applies (X : Externals) (name : string) (label : Label.t)
    : bool :=
  Label.applyFilterEnabled label
  && negb (empty (Label.applyFilter label))
  && match regex_ctor X (Label.applyFilter label) with
     | Some re => match regex_search X name re with
                  | Some found => found
                  | None => false
                  end
     | None => false
     end.

Definition first_match (X : Externals) (labels : list Label.t)
    (name : string) : option Label.t :=
  if empty name then None else List.find (label_applies X name) labels.

(** The save path override of a matched label. *)
Definition apply_label (label : Label.t) (p : Params.t) : Params.t :=
  if (0 <? size (Label.savePath label)) && Label.savePathEnabled label
  then Params.set_save_path (Label.savePath label) p
  else p.

(** A label whose filter is used has a pattern that the constructor
    accepts and whose search of the name completes. *)
Definition pattern_ok (X : Externals) (name : string) (label : Label.t)
    : bool :=
  negb (Label.applyFilterEnabled label)
  || empty (Label.applyFilter label)
  || match regex_ctor X (Label.applyFilter label) with
     | Some re => bool_decide (is_Some (regex_search X name re))
     | None => false
     end.

Definition patterns_ok (X : Externals) (labels : list Label.t)
    (name : string) : bool :=
  forallb (pattern_ok X name) labels.

(** The label loop has nothing to raise on a descriptor: it has no name,
    or every label in use has a pattern that is accepted and whose search
    of the descriptor's name completes. *)
Definition descriptor_ok (X : Externals) (labels : list Label.t)
    (p : Params.t) : bool :=
  empty (label_match_name p) || patterns_ok X labels (label_match_name p).

Definition batch_ok (X : Externals) (labels : list Label.t)
    (params : list Params.t) : bool :=
  forallb (descriptor_ok X labels) params.

(** The hashes of the descriptors of a batch that lack a torrent info and
    have a hash that is not all zeros, in input order. *)
Definition pending_hashes (params : list Params.t) : list lt.info_hash_t :=
  map Params.info_hashes (List.filter wants_metadata params).

(** What the first loop keeps of a descriptor, and what it sets. *)
Definition same_descriptor (p q : Params.t) : Prop :=
  Params.info_hashes q = Params.info_hashes p
  /\ Params.ti q = Params.ti p
  /\ Params.name q = Params.name p
  /\ Params.flags q = N.lor (Params.flags p) lt.duplicate_is_error.

Definition is_metadata_search (c : Call) : bool :=
  match c with Session_AddMetadataSearch _ => true | _ => false end.

Definition is_show (c : Call) : bool :=
  match c with AddTorrentDialog_Show _ _ => true | _ => false end.

(** ** Further notions: selection and dialogs *)

(** Every selected entry is filed under the hash of its handle. *)
Definition selection_keyed (sel : selection_map) : Prop :=
  forall h t, sel !! h = Some t -> Handle.InfoHash t = h.

Definition is_selection_changed (e : Event) : bool :=
  match e with wxEVT_DATAVIEW_SELECTION_CHANGED _ => true | _ => false end.

(** The hashes the "removed" events of a sequence carry, in order. *)
Fixpoint removed_hashes (es : list Event) : list lt.info_hash_t :=
  match es with
  | [] => []
  | ptEVT_TORRENT_REMOVED h :: rest => h :: removed_hashes rest
  | _ :: rest => removed_hashes rest
  end.


(** ** Further notions: what the first loop leaves in a descriptor *)

(** The descriptor is unlabelled at the default save path, or it carries
    the identifier of a label of the set whose filter is enabled, at the
    default save path when the label's save path is disabled or empty,
    and at the label's save path when this is enabled and not empty. *)
Definition labelled_by (X : Externals) (cfg : Cfg.t) (q : Params.t) : Prop :=
  exists our, Params.userdata q = Some our /\
    ((our = AddParams_new X
      /\ Params.save_path q = Cfg.default_save_path cfg)
     \/ exists label,
          In label (Cfg.GetLabels cfg)
          /\ Label.applyFilterEnabled label = true
          /\ our = AddParams.set_labelId (Label.id label) (AddParams_new X)
          /\ ((Params.save_path q = Cfg.default_save_path cfg
               /\ (Label.savePathEnabled label = false
                   \/ Label.savePath label = ""%string))
              \/ (Params.save_path q = Label.savePath label
                  /\ Label.savePathEnabled label = true
                  /\ Label.savePath label <> ""%string))).

(** ** Further notions: single precision *)

(** Not positive: a finite number or an infinity carries the negative
    sign. *)
Definition nonpos (x : float) : Prop :=
  match x with
  | S754_infinity s | S754_finite s _ _ => s = true
  | S754_zero _ | S754_nan => True
  end.

Definition set_limit (limit : Z) (c : Cfg.t) : Cfg.t :=
  {| Cfg.default_save_path := Cfg.default_save_path c;
     Cfg.skip_add_torrent_dialog := Cfg.skip_add_torrent_dialog c;
     Cfg.pause_on_low_disk_space := Cfg.pause_on_low_disk_space c;
     Cfg.pause_on_low_disk_space_limit := limit;
     Cfg.GetLabels := Cfg.GetLabels c |}.

(** ** ParseTorrentFiles and HandleParams *)

(** What parsing takes from libtorrent: [parse_magnet_uri(magnet, ec)] and
    the constructor [torrent_info(path, ec)], each [None] when it sets the
    error code, and a default-constructed [add_torrent_params]. *)
Record Parsers := {
  parse_magnet_uri : string -> option Params.t;
  torrent_info_of_file : string -> option lt.torrent_info;
  add_torrent_params_new : Params.t
}.

Definition set_ti (ti : option lt.torrent_info) (p : Params.t) : Params.t :=
  {| Params.flags := Params.flags p; Params.save_path := Params.save_path p;
     Params.userdata := Params.userdata p;
     Params.info_hashes := Params.info_hashes p; Params.ti := ti;
     Params.name := Params.name p |}.

(** The loop over [paths]: a file that does not parse is skipped. *)
Fixpoint ParseTorrentFiles (P : Parsers) (params : list Params.t)
    (paths : list string) : list Params.t :=
  match paths with
  | [] => params
  | path :: rest =>
    let param := add_torrent_params_new P in
    match torrent_info_of_file P path with
    | None => ParseTorrentFiles P params rest
    | Some ti =>
      let param := set_ti (Some ti) param in
      ParseTorrentFiles P (params ++ [param]) rest
    end
  end.

(** The loop over [magnets] in [HandleParams]. *)
Fixpoint parse_magnets (P : Parsers) (params : list Params.t)
    (magnets : list string) : list Params.t :=
  match magnets with
  | [] => params
  | magnet :: rest =>
    match parse_magnet_uri P magnet with
    | None => parse_magnets P params rest
    | Some tp => parse_magnets P (params ++ [tp]) rest
    end
  end.

Definition HandleParams (X : Externals) (P : Parsers) (cfg : Cfg.t)
    (f : MainFrame) (files magnets : list string) : outcome Added :=
  let params := [] in
  let params := match files with
                | [] => params
                | _ => ParseTorrentFiles P params files
                end in
  let params := match magnets with
                | [] => params
                | _ => parse_magnets P params magnets
                end in
  AddTorrents X cfg f params.

(** The descriptor [ParseTorrentFiles] builds for a file that parses. *)
Definition file_params (P : Parsers) (path : string) : option Params.t :=
  match torrent_info_of_file P path with
  | Some ti => Some (set_ti (Some ti) (add_torrent_params_new P))
  | None => None
  end.

(** A sample parser: a magnet link is "magnet:" followed by one digit,
    the v1 hash; a torrent file parses when its path ends in ".torrent". *)
Module SampleParsers.

Local Open Scope string_scope.

Definition magnet (s : string) : option Params.t :=
  match s with
  | String "m" (String "a" (String "g" (String "n" (String "e" (String "t"
      (String ":" (String d EmptyString))))))) =>
    let n := nat_of_ascii d in
    if (Nat.leb 49 n && Nat.leb n 57)%bool
    then Some (Sample.magnet {| lt.v1 := N.of_nat (n - 48); lt.v2 := 0%N |} "")
    else None
  | _ => None
  end.

Definition ends_with_torrent (path : string) : bool :=
  match index 0 ".torrent" path with
  | Some i => Nat.eqb (i + 8) (String.length path)
  | None => false
  end.

Definition file (path : string) : option lt.torrent_info :=
  if ends_with_torrent path
  then Some {| lt.ti_name := path;
               lt.ti_info_hashes := {| lt.v1 := 9%N; lt.v2 := 0%N |} |}
  else None.

Definition P : Parsers :=
  {| parse_magnet_uri := magnet;
     torrent_info_of_file := file;
     add_torrent_params_new := Sample.magnet {| lt.v1 := 0%N; lt.v2 := 0%N |} "" |}.

End SampleParsers.

(** ** Menus: labels and filters *)

(** The identifiers of ids.hpp that the menus use. *)
Record Ids := {
  ptID_EVT_LABELS_NONE : Z;
  ptID_EVT_LABELS_USER : Z;
  ptID_EVT_FILTERS_NONE : Z;
  ptID_EVT_FILTERS_USER : Z
}.

(** A [wxMenuItem] of a radio menu: its identifier and its text. *)
Record MenuItem := { item_id : Z; item_text : string }.

(** An entry of the view menu, as far as [AddFilter] changes it. *)
Inductive ViewEntry :=
| ViewSeparator
| ViewSubMenu (text : string)
| ViewItem (id : Z) (text : string).

(** Calls on the list model that the menus make; [F] is the type of the
    filter functions. *)
Inductive ModelCall (F : Type) :=
| TorrentListModel_SetLabelFilter (labelId : Z)
| TorrentListModel_ClearLabelFilter
| TorrentListModel_SetFilter (filter : F)
| TorrentListModel_ClearFilter
| TorrentListModel_UpdateLabels (labels : gmap Z (string * string)).
Arguments TorrentListModel_SetLabelFilter {F} labelId.
Arguments TorrentListModel_ClearLabelFilter {F}.
Arguments TorrentListModel_SetFilter {F} filter.
Arguments TorrentListModel_ClearFilter {F}.
Arguments TorrentListModel_UpdateLabels {F} labels.

(** [std::map::insert] for any map: an existing key keeps its value. *)
Definition std_insert {K} `{Countable K} {V} (k : K) (v : V) (m : gmap K V)
    : gmap K V :=
  match m !! k with
  | Some _ => m
  | None => <[k := v]> m
  end.

(** The first loop of [CreateLabelMenuItems]: positions [n - 1] down to
    0; an item whose identifier is above [ptID_EVT_LABELS_USER] is deleted.
    Every position the loop visits holds an item. *)
Fixpoint delete_label_items (I : Ids) (n : nat) (menu : list MenuItem)
    : list MenuItem :=
  match n with
  | O => menu
  | S i =>
    match menu !! i with
    | Some item =>
      if item_id item <=? ptID_EVT_LABELS_USER I
      then delete_label_items I i menu
      else delete_label_items I i (delete i menu)
    | None => delete_label_items I i menu
    end
  end.

Definition label_item (I : Ids) (label : Label.t) : MenuItem :=
  {| item_id := ptID_EVT_LABELS_USER I + Label.id label;
     item_text := Label.name label |}.

Definition CreateLabelMenuItems (I : Ids) (cfg : Cfg.t)
    (m_labelsMenu : list MenuItem) : list MenuItem :=
  let m_labelsMenu :=
    delete_label_items I (length m_labelsMenu) m_labelsMenu in
  fold_left (fun menu label => menu ++ [label_item I label])
            (Cfg.GetLabels cfg) m_labelsMenu.

(** The handler [CreateMainMenu] binds to the labels menu. *)
Definition on_labels_menu {F} (I : Ids) (id : Z) : list (ModelCall F) :=
  if id >? ptID_EVT_LABELS_USER I then
    let labelId := id - ptID_EVT_LABELS_USER I in
    [TorrentListModel_SetLabelFilter labelId]
  else if id =? ptID_EVT_LABELS_NONE I then
    [TorrentListModel_ClearLabelFilter]
  else [].

(** [UpdateLabels]: the map from label identifier to name and colour. *)
Definition UpdateLabels {F} (cfg : Cfg.t) : list (ModelCall F) :=
  let labels :=
    fold_left (fun labels label =>
                 std_insert (Label.id label)
                            (Label.name label, Label.color label) labels)
              (Cfg.GetLabels cfg) ∅ in
  [TorrentListModel_UpdateLabels labels].

(** The filter part of the frame: [m_menuItemFilters] (null or not), the
    items of [m_filtersMenu], [m_filters] and the view menu. *)
Record Filters (F : Type) := {
  m_menuItemFilters : bool;
  m_filtersMenu : list MenuItem;
  m_filters : gmap Z F;
  m_viewMenu : list ViewEntry
}.
Arguments m_menuItemFilters {F} _.
Arguments m_filtersMenu {F} _.
Arguments m_filters {F} _.
Arguments m_viewMenu {F} _.

(** The constructor leaves [m_menuItemFilters] null and [m_filters]
    empty; the view menu is the one [CreateMainMenu] built. *)
Definition Filters_new {F} (viewMenu : list ViewEntry) : Filters F :=
  {| m_menuItemFilters := false; m_filtersMenu := []; m_filters := ∅;
     m_viewMenu := viewMenu |}.

Definition AddFilter {F} (X : Externals) (I : Ids) (s : Filters F)
    (name : string) (filter : F) : Filters F :=
  let s :=
    if m_menuItemFilters s then s
    else
      {| m_menuItemFilters := true;
         m_filtersMenu :=
           [ {| item_id := ptID_EVT_FILTERS_NONE I;
                item_text := i18n X "amp_none"%string |} ];
         m_filters := m_filters s;
         m_viewMenu := ViewSubMenu (i18n X "amp_filter"%string)
                       :: ViewSeparator :: m_viewMenu s |} in
  let id := ptID_EVT_FILTERS_USER I
            + Z.of_nat (length (m_filtersMenu s)) in
  {| m_menuItemFilters := m_menuItemFilters s;
     m_filtersMenu := m_filtersMenu s
                      ++ [ {| item_id := id; item_text := name |} ];
     m_filters := std_insert id filter (m_filters s);
     m_viewMenu := m_viewMenu s |}.

(** The handler [AddFilter] binds to the filters menu. *)
Definition on_filters_menu {F} (s : Filters F) (id : Z)
    : list (ModelCall F) :=
  match m_filters s !! id with
  | None => [TorrentListModel_ClearFilter]
  | Some filter => [TorrentListModel_SetFilter filter]
  end.

(** Successive calls of [AddFilter]. *)
Definition add_filters {F} (X : Externals) (I : Ids) (s : Filters F)
    (fs : list (string * F)) : Filters F :=
  fold_left (fun s nf => AddFilter X I s (fst nf) (snd nf)) fs s.

Definition sample_ids : Ids :=
  {| ptID_EVT_LABELS_NONE := 1000; ptID_EVT_LABELS_USER := 1001;
     ptID_EVT_FILTERS_NONE := 2000; ptID_EVT_FILTERS_USER := 2001 |}.

(** ** The websocket listener *)

(** What the acceptor answers: for each step of the constructor the
    message of the error code it sets, [None] when it sets none. *)
Record Acceptor := {
  open_ec : option string;
  set_option_ec : option string;
  bind_ec : option string;
  listen_ec : option string
}.

Inductive AcceptorCall :=
| acceptor_open
| acceptor_set_option
| acceptor_bind
| acceptor_listen
| acceptor_async_accept.

(** The constructor: the calls it makes, and the message of the exception
    it throws, if any. *)
Definition websocket_listener_new (a : Acceptor)
    : list AcceptorCall * option string :=
  match open_ec a with
  | Some msg => ([acceptor_open], Some msg)
  | None =>
    match set_option_ec a with
    | Some msg => ([acceptor_open; acceptor_set_option], Some msg)
    | None =>
      match bind_ec a with
      | Some msg =>
        ([acceptor_open; acceptor_set_option; acceptor_bind], Some msg)
      | None =>
        ([acceptor_open; acceptor_set_option; acceptor_bind; acceptor_listen],
         listen_ec a)
      end
    end
  end.

(** [on_accept] for each completed accept, in order: with an error code
    it throws, otherwise it accepts again. *)
Fixpoint on_accepts (completions : list (option string))
    : list AcceptorCall * option string :=
  match completions with
  | [] => ([], None)
  | Some msg :: _ => ([], Some msg)
  | None :: rest =>
    let '(calls, thrown) := on_accepts rest in
    (acceptor_async_accept :: calls, thrown)
  end.

(** [run], followed by the handling of the given completions. *)
Definition websocket_listener_run (completions : list (option string))
    : list AcceptorCall * option string :=
  let '(calls, thrown) := on_accepts completions in
  (acceptor_async_accept :: calls, thrown).

(** The completions before the first one that carries an error. *)
Fixpoint accepted (completions : list (option string)) : nat :=
  match completions with
  | None :: rest => S (accepted rest)
  | _ => 0%nat
  end.

(** ** Further notions: what the collaborators were told last *)

(** The count the status bar shows after a sequence of calls, when it
    showed [shown] before. *)
Definition shown_count (shown : Z) (calls : list Call) : Z :=
  fold_left (fun shown call =>
               match call with
               | StatusBar_UpdateTorrentCount count => count
               | _ => shown
               end)
            calls shown.

(** The dialog and the descriptor of a call that shows a dialog. *)
Definition shown_dialog (c : Call) : option (N * Params.t) :=
  match c with
  | AddTorrentDialog_Show dlg param => Some (dlg, param)
  | _ => None
  end.

(** ** An engine whose search can fail

    The sample engine, except that the search of a name of more than
    sixteen characters throws, as a search that runs into the
    implementation's complexity or stack limit does. *)
Definition limited_search (name : string) (re : string) : option bool :=
  if Nat.ltb 16 (String.length name) then None
  else Some (Sample.search_icase re name).

Definition X_limited : Externals :=
  {| regex := string;
     regex_ctor := Sample.ctor;
     regex_search := limited_search;
     GetDiskFreeSpaceEx := Sample.disk;
     i18n := fun key => key;
     WIN32 := true;
     AddParams_new := {| AddParams.labelId := -1 |};
     count_bits := 64 |}.

(** * Properties *)

(** ** Single precision: signs and division by zero *)

Lemma binary_round_aux_sign sx mx ex lx :
  match binary_round_aux 24 128 sx mx ex lx with
  | S754_zero s | S754_infinity s | S754_finite s _ _ => s = sx
  | S754_nan => True
  end.
Proof.
  unfold binary_round_aux.
  destruct (shr_fexp 24 128 mx ex lx) as [mrs' e'].
  destruct (shr_fexp 24 128 _ e' loc_Exact) as [mrs'' e''].
  destruct (shr_m mrs''); [reflexivity | | exact I].
  destruct (Z.leb _ _); reflexivity.
Qed.

Lemma float_of_uint64_nonneg (n : N) : nonneg (float_of_uint64 n).
Proof.
  unfold float_of_uint64, f32_of_Z, binary_normalize.
  destruct n as [|p]; simpl; [reflexivity|].
  unfold binary_round.
  destruct (shl_align _ _ _) as [mz ez].
  apply (binary_round_aux_sign false).
Qed.

Lemma float_of_uint64_zero : float_of_uint64 0 = S754_zero false.
Proof. reflexivity. Qed.

(** A quotient by zero is an infinity or not a number, and neither is
    below anything when the dividend is not negative. *)
Lemma div_zero_not_below (x y : float) :
  nonneg x -> f32_ltb (f32_div x (S754_zero false)) y = false.
Proof.
  unfold f32_ltb, f32_div, SFltb.
  destruct x as [s|s| |s m e]; simpl; intros Hs; subst;
    destruct y as [s'|s'| |s' m' e']; simpl; try reflexivity;
    destruct s'; reflexivity.
Qed.

(** ** The disk-space governor *)

Lemma CheckDiskSpace_body_low X limit t :
  CheckDiskSpace_body X limit t =
  if low_disk_space X limit t then [TorrentHandle_Pause t; balloon X t] else [].
Proof.
  unfold CheckDiskSpace_body, low_disk_space, balloon.
  destruct (GetDiskFreeSpaceEx X _) as [[free total]|]; reflexivity.
Qed.

Lemma CheckDiskSpace_governor_calls X cfg ts :
  Forall (fun c => is_governor_call c = true) (CheckDiskSpace X cfg ts).
Proof.
  unfold CheckDiskSpace.
  destruct (negb _); [constructor|].
  destruct (WIN32 X); [|constructor].
  induction ts as [|t ts IH]; simpl; [constructor|].
  apply Forall_app; split; [|exact IH].
  rewrite CheckDiskSpace_body_low.
  destruct (low_disk_space _ _ _); repeat constructor.
Qed.

Lemma filter_all {A} (P : A -> bool) (l : list A) :
  Forall (fun x => P x = true) l -> List.filter P l = l.
Proof.
  induction 1 as [|x l Hx _ IH]; simpl; [reflexivity|].
  rewrite Hx, IH. reflexivity.
Qed.

Lemma In_CheckDiskSpace X cfg ts c :
  In c (CheckDiskSpace X cfg ts) ->
  Cfg.pause_on_low_disk_space cfg = true /\ WIN32 X = true /\
  exists t, In t ts /\
    In c (CheckDiskSpace_body X (Cfg.pause_on_low_disk_space_limit cfg) t).
Proof.
  unfold CheckDiskSpace.
  destruct (Cfg.pause_on_low_disk_space cfg); simpl; [|intros []].
  destruct (WIN32 X); [|intros []].
  rewrite in_flat_map. intros (t & Ht & Hc). eauto.
Qed.


Lemma In_body_pause X limit t t' :
  In (TorrentHandle_Pause t) (CheckDiskSpace_body X limit t') ->
  t' = t /\ low_disk_space X limit t = true.
Proof.
  rewrite CheckDiskSpace_body_low.
  destruct (low_disk_space X limit t') eqn:Hlow; simpl; [|tauto].
  intros [H|[H|[]]]; [|discriminate]. injection H as ->. auto.
Qed.

Lemma low_disk_space_compare X limit t :
  low_disk_space X limit t = true <->
  exists free total,
    GetDiskFreeSpaceEx X (Status.savePath (Handle.Status t)) = Some (free, total)
    /\ SFcompare (available_ratio free total) (limit_ratio limit) = Some Lt.
Proof.
  unfold low_disk_space, available_ratio, limit_ratio, f32_ltb, SFltb.
  destruct (GetDiskFreeSpaceEx X _) as [[free total]|]; split.
  - intros H. exists free, total. split; [reflexivity|].
    destruct (SFcompare _ _) as [[]|]; congruence.
  - intros (free' & total' & [= <- <-] & ->). reflexivity.
  - discriminate.
  - intros (? & ? & ? & _). discriminate.
Qed.

Lemma In_CheckDiskSpace_pause X cfg ts t :
  In (TorrentHandle_Pause t) (CheckDiskSpace X cfg ts) <->
  Cfg.pause_on_low_disk_space cfg = true /\ WIN32 X = true /\ In t ts /\
  low_disk_space X (Cfg.pause_on_low_disk_space_limit cfg) t = true.
Proof.
  split.
  - intros H. apply In_CheckDiskSpace in H as (Hon & Hwin & t' & Ht' & Hin).
    apply In_body_pause in Hin as [-> Hlow]. auto.
  - intros (Hon & Hwin & Hin & Hlow).
    unfold CheckDiskSpace. rewrite Hon, Hwin. simpl.
    apply in_flat_map. exists t. split; [exact Hin|].
    rewrite CheckDiskSpace_body_low, Hlow. left. reflexivity.
Qed.

Lemma CheckDiskSpace_app X cfg ts1 ts2 :
  CheckDiskSpace X cfg (ts1 ++ ts2) =
  CheckDiskSpace X cfg ts1 ++ CheckDiskSpace X cfg ts2.
Proof.
  unfold CheckDiskSpace.
  destruct (negb _); [reflexivity|].
  destruct (WIN32 X); [|reflexivity].
  apply flat_map_app.
Qed.

Lemma CheckDiskSpace_cons_nil X cfg t ts :
  CheckDiskSpace_body X (Cfg.pause_on_low_disk_space_limit cfg) t = [] ->
  CheckDiskSpace X cfg (t :: ts) = CheckDiskSpace X cfg ts.
Proof.
  unfold CheckDiskSpace. intros H.
  destruct (negb _); [reflexivity|].
  destruct (WIN32 X); [|reflexivity].
  simpl. rewrite H. reflexivity.
Qed.

(** C7: the trigger is a strict less-than on the two single-precision
    ratios. With 50 bytes free of 100 and a limit of 50 no pause is issued;
    a torrent is paused in a pass exactly when the governor is on, the
    torrent is in the batch, its query succeeds and its available ratio
    compares strictly below the limit ratio; ratios that compare equal do
    not pause. *)
Theorem governor_strict_less_than (X : Externals) (cfg : Cfg.t) :
  (forall t ts,
      GetDiskFreeSpaceEx X (Status.savePath (Handle.Status t))
        = Some (50%N, 100%N) ->
      Cfg.pause_on_low_disk_space_limit cfg = 50 ->
      ~ In (TorrentHandle_Pause t) (CheckDiskSpace X cfg ts)
      /\ ~ In (balloon X t) (CheckDiskSpace X cfg [t]))
  /\ (forall t ts,
      In (TorrentHandle_Pause t) (CheckDiskSpace X cfg ts) <->
      Cfg.pause_on_low_disk_space cfg = true /\ WIN32 X = true /\ In t ts /\
      exists free total,
        GetDiskFreeSpaceEx X (Status.savePath (Handle.Status t))
          = Some (free, total)
        /\ SFcompare (available_ratio free total)
                     (limit_ratio (Cfg.pause_on_low_disk_space_limit cfg))
           = Some Lt)
  /\ (forall t ts free total,
      GetDiskFreeSpaceEx X (Status.savePath (Handle.Status t))
        = Some (free, total) ->
      SFcompare (available_ratio free total)
                (limit_ratio (Cfg.pause_on_low_disk_space_limit cfg))
        = Some Eq ->
      ~ In (TorrentHandle_Pause t) (CheckDiskSpace X cfg ts)).
Proof.
  split; [|split].
  - intros t ts Hq Hlim.
    assert (Hlow : low_disk_space X (Cfg.pause_on_low_disk_space_limit cfg) t
                   = false).
    { unfold low_disk_space. rewrite Hq, Hlim. vm_compute. reflexivity. }
    split.
    + rewrite In_CheckDiskSpace_pause, Hlow. intros (_ & _ & _ & H). discriminate.
    + rewrite <- (app_nil_r [t]) at 1. change ([t] ++ []) with (t :: []).
      rewrite CheckDiskSpace_cons_nil.
      * unfold CheckDiskSpace. destruct (negb _); [tauto|].
        destruct (WIN32 X); simpl; tauto.
      * rewrite CheckDiskSpace_body_low, Hlow. reflexivity.
  - intros t ts. rewrite In_CheckDiskSpace_pause, low_disk_space_compare.
    tauto.
  - intros t ts free total Hq Heq.
    rewrite In_CheckDiskSpace_pause, low_disk_space_compare.
    intros (_ & _ & _ & free' & total' & Hq' & Hlt).
    rewrite Hq in Hq'. injection Hq' as <- <-. congruence.
Qed.

Lemma governor_strict_less_than_witness :
  let t := Sample.torrent 2 Sample.H2 "b" "D:/half" in
  ~ In (TorrentHandle_Pause t) (CheckDiskSpace Sample.X Sample.cfg [t])
  /\ ~ In (balloon Sample.X t) (CheckDiskSpace Sample.X Sample.cfg [t]).
Proof.
  intros t.
  apply (proj1 (governor_strict_less_than Sample.X Sample.cfg) t [t]);
    reflexivity.
Defined.

(** Rounding: the ratios are compared after each operand was rounded to
    single precision, so ratios that are equal as fractions can still
    compare strictly below (here 16777217 / 167772170 against 10 / 100). *)
Example rounded_ratio_below :
  SFcompare (available_ratio 16777217 167772170) (limit_ratio 10) = Some Lt.
Proof. vm_compute. reflexivity. Qed.

Lemma CheckDiskSpace_body_divides X limit t :
  CheckDiskSpace_body X limit t = CheckDiskSpace_body_with f32_div X limit t.
Proof. reflexivity. Qed.

Lemma available_ratio_zero_total (free : N) :
  available_ratio free 0 = S754_nan
  \/ available_ratio free 0 = S754_infinity false.
Proof.
  unfold available_ratio. rewrite float_of_uint64_zero.
  pose proof (float_of_uint64_nonneg free) as Hs.
  unfold f32_div, SFdiv.
  destruct (float_of_uint64 free) as [s|s| |s m e]; cbn [nonneg] in Hs;
    subst; auto.
Qed.

(** C8 fails in its clause that no division is relied upon: for a volume
    that reports zero total bytes the body does divide by zero, here 0 by
    0, which gives NaN, and the handle is skipped only because NaN does
    not compare below the limit ratio. The outcome hangs on what this
    division yields: the same body with a division that gave zero would
    pause the torrent and notify. *)
Lemma governor_divides_by_zero :
  let t := Sample.torrent 3 Sample.H2 "c" "D:/none" in
  GetDiskFreeSpaceEx Sample.X (Status.savePath (Handle.Status t))
    = Some (0%N, 0%N)
  /\ available_ratio 0 0 = S754_nan
  /\ CheckDiskSpace_body Sample.X 50 t
     = (if f32_ltb (available_ratio 0 0) (limit_ratio 50)
        then [TorrentHandle_Pause t; balloon Sample.X t] else [])
  /\ CheckDiskSpace_body_with f32_div Sample.X 50 t = []
  /\ CheckDiskSpace_body_with (fun _ _ => S754_zero false) Sample.X 50 t
     = [TorrentHandle_Pause t; balloon Sample.X t].
Proof. vm_compute. repeat split. Qed.

(** C8, amended: for a handle whose query reports zero total bytes there
    is no guard: the quotient of the free bytes by zero is computed, in
    single precision it is NaN or plus infinity, and the body decides by
    comparing it with the limit ratio. Neither value compares below, so
    the loop body issues nothing for the handle, it is not paused in any
    pass, and the calls of a pass are those of the batch without it. *)
Theorem governor_skips_zero_total (X : Externals) (cfg : Cfg.t)
    (t : Handle.t) (free : N) :
  GetDiskFreeSpaceEx X (Status.savePath (Handle.Status t)) = Some (free, 0%N) ->
  (available_ratio free 0 = S754_nan
   \/ available_ratio free 0 = S754_infinity false)
  /\ CheckDiskSpace_body X (Cfg.pause_on_low_disk_space_limit cfg) t
     = (if f32_ltb (available_ratio free 0)
                   (limit_ratio (Cfg.pause_on_low_disk_space_limit cfg))
        then [TorrentHandle_Pause t; balloon X t] else [])
  /\ CheckDiskSpace_body X (Cfg.pause_on_low_disk_space_limit cfg) t = []
  /\ (forall ts, ~ In (TorrentHandle_Pause t) (CheckDiskSpace X cfg ts))
  /\ (forall ts1 ts2,
        CheckDiskSpace X cfg (ts1 ++ t :: ts2)
        = CheckDiskSpace X cfg (ts1 ++ ts2)).
Proof.
  intros Hq.
  assert (Hlow : low_disk_space X (Cfg.pause_on_low_disk_space_limit cfg) t
                 = false).
  { unfold low_disk_space. rewrite Hq, float_of_uint64_zero.
    apply div_zero_not_below, float_of_uint64_nonneg. }
  assert (Hbody : CheckDiskSpace_body X (Cfg.pause_on_low_disk_space_limit cfg) t
                  = []).
  { rewrite CheckDiskSpace_body_low, Hlow. reflexivity. }
  split; [apply available_ratio_zero_total|].
  split.
  { unfold CheckDiskSpace_body. rewrite Hq. reflexivity. }
  split; [exact Hbody|split].
  - intros ts. rewrite In_CheckDiskSpace_pause, Hlow.
    intros (_ & _ & _ & H). discriminate.
  - intros ts1 ts2. rewrite !CheckDiskSpace_app.
    rewrite (CheckDiskSpace_cons_nil _ _ _ _ Hbody). reflexivity.
Qed.

Lemma governor_skips_zero_total_witness :
  let t := Sample.torrent 3 Sample.H2 "c" "D:/none" in
  (available_ratio 0 0 = S754_nan
   \/ available_ratio 0 0 = S754_infinity false)
  /\ CheckDiskSpace_body Sample.X 50 t
     = (if f32_ltb (available_ratio 0 0) (limit_ratio 50)
        then [TorrentHandle_Pause t; balloon Sample.X t] else [])
  /\ CheckDiskSpace_body Sample.X 50 t = []
  /\ (forall ts, ~ In (TorrentHandle_Pause t)
                      (CheckDiskSpace Sample.X Sample.cfg ts))
  /\ (forall ts1 ts2,
        CheckDiskSpace Sample.X Sample.cfg (ts1 ++ t :: ts2)
        = CheckDiskSpace Sample.X Sample.cfg (ts1 ++ ts2)).
Proof.
  intros t.
  apply (governor_skips_zero_total Sample.X Sample.cfg t 0%N).
  reflexivity.
Defined.


Lemma run_app X cfg f es1 es2 :
  run X cfg f (es1 ++ es2) =
  let '(f1, calls1) := run X cfg f es1 in
  let '(f2, calls2) := run X cfg f1 es2 in
  (f2, calls1 ++ calls2).
Proof.
  revert f. induction es1 as [|e es1 IH]; intros f; simpl.
  - destruct (run X cfg f es2). reflexivity.
  - destruct (handle X cfg f e) as [f1 c1]. rewrite IH.
    destruct (run X cfg f1 es1) as [f2 c2].
    destruct (run X cfg f2 es2) as [f3 c3].
    rewrite app_assoc. reflexivity.
Qed.

Lemma on_torrents_updated_governor X cfg f ts :
  List.filter is_governor_call (snd (on_torrents_updated X cfg f ts))
  = CheckDiskSpace X cfg ts.
Proof.
  unfold on_torrents_updated. simpl.
  rewrite List.filter_app.
  destruct (0 <? _); simpl; apply filter_all, CheckDiskSpace_governor_calls.
Qed.

Lemma run_passes_governor X cfg f batches :
  fst (run X cfg f (passes batches)) = f
  /\ List.filter is_governor_call (snd (run X cfg f (passes batches)))
     = flat_map (CheckDiskSpace X cfg) batches.
Proof.
  induction batches as [|ts batches [IHf IHc]]; [simpl; auto|].
  cbn [passes map run handle]. fold (passes batches).
  pose proof (on_torrents_updated_governor X cfg f ts) as Hts.
  destruct (on_torrents_updated X cfg f ts) as [f1 c1] eqn:Hup.
  assert (f1 = f) by (unfold on_torrents_updated in Hup; congruence).
  subst f1. destruct (run X cfg f (passes batches)) as [f2 c2].
  cbn [fst snd] in *. rewrite List.filter_app, Hts, IHc. auto.
Qed.

(** C1 fails: two successive passes over the same torrent, which stays
    on the volume with 49 bytes free of 100 under a limit of 50 and is not
    resumed in between, each issue the pause command and the notification. *)
Lemma governor_pauses_again :
  let t := Sample.torrent 1 Sample.H1 "a" "D:/low" in
  snd (run Sample.X Sample.cfg MainFrame_new (passes [[t]; [t]]))
  = [ TorrentListModel_UpdateTorrents [t];
      TorrentHandle_Pause t; balloon Sample.X t;
      TorrentListModel_UpdateTorrents [t];
      TorrentHandle_Pause t; balloon Sample.X t ].
Proof. vm_compute. reflexivity. Qed.

(** C1, amended: the governor keeps no record of earlier passes. Whatever
    the frame's state, the pause commands and notifications of a sequence
    of passes are those of each batch on its own, in order; and in every
    pass (governor enabled, Windows build) each torrent of the batch whose
    available ratio is strictly below the limit ratio is paused and
    notified, once per occurrence in the batch. *)
Theorem governor_pauses_every_pass (X : Externals) (cfg : Cfg.t)
    (f : MainFrame) (batches : list (list Handle.t)) :
  Cfg.pause_on_low_disk_space cfg = true ->
  WIN32 X = true ->
  List.filter is_governor_call (snd (run X cfg f (passes batches)))
  = flat_map
      (fun ts =>
         flat_map
           (fun t =>
              if low_disk_space X (Cfg.pause_on_low_disk_space_limit cfg) t
              then [TorrentHandle_Pause t; balloon X t] else [])
           ts)
      batches.
Proof.
  intros Hon Hwin.
  destruct (run_passes_governor X cfg f batches) as [_ ->].
  apply flat_map_ext. intros ts.
  unfold CheckDiskSpace. rewrite Hon, Hwin. simpl.
  apply flat_map_ext. intros t. apply CheckDiskSpace_body_low.
Qed.

Lemma governor_pauses_every_pass_witness :
  let t := Sample.torrent 1 Sample.H1 "a" "D:/low" in
  List.filter is_governor_call
    (snd (run Sample.X Sample.cfg MainFrame_new (passes [[t]; [t]])))
  = [ TorrentHandle_Pause t; balloon Sample.X t;
      TorrentHandle_Pause t; balloon Sample.X t ].
Proof.
  intros t.
  exact (governor_pauses_every_pass Sample.X Sample.cfg MainFrame_new
           [[t]; [t]] eq_refl eq_refl).
Defined.


(** ** The torrent counter *)

Lemma pow2_double (b : positive) : 2 ^ Z.pos b = 2 * 2 ^ (Z.pos b - 1).
Proof.
  rewrite <- Z.pow_succ_r by lia. f_equal. lia.
Qed.

Lemma wrap_add (b : positive) (a k : Z) :
  wrap b (wrap b a + k) = wrap b (a + k).
Proof.
  unfold wrap. f_equal.
  replace ((a + 2 ^ (Z.pos b - 1)) mod 2 ^ Z.pos b - 2 ^ (Z.pos b - 1) + k
           + 2 ^ (Z.pos b - 1))
    with ((a + 2 ^ (Z.pos b - 1)) mod 2 ^ Z.pos b + k) by lia.
  rewrite Zplus_mod_idemp_l. f_equal. lia.
Qed.

Lemma wrap_add_sub (b : positive) (a x y : Z) :
  wrap b (wrap b a + x - y) = wrap b (a + (x - y)).
Proof.
  replace (wrap b a + x - y) with (wrap b a + (x - y)) by lia.
  apply wrap_add.
Qed.

Lemma wrap_wrap (b : positive) (a : Z) : wrap b (wrap b a) = wrap b a.
Proof.
  rewrite <- (Z.add_0_r (wrap b a)) at 1. rewrite wrap_add. f_equal. lia.
Qed.

Lemma wrap_small (b : positive) (z : Z) :
  - 2 ^ (Z.pos b - 1) <= z < 2 ^ (Z.pos b - 1) -> wrap b z = z.
Proof.
  intros H. unfold wrap. rewrite Z.mod_small; [lia|].
  rewrite pow2_double. lia.
Qed.

(** What one event adds to the counter. *)
Lemma handle_count X cfg f e :
  m_torrentsCount (fst (handle X cfg f e)) =
  if is_added e then wrap (count_bits X) (m_torrentsCount f + 1)
  else if is_removed e then wrap (count_bits X) (m_torrentsCount f - 1)
  else m_torrentsCount f.
Proof.
  destruct e as [t|h|ts|items|evt|dlg]; simpl; try reflexivity.
  - unfold on_torrent_removed.
    destruct (m_selection _ !! h); reflexivity.
  - unfold on_selection_changed. destruct items; reflexivity.
Qed.

Lemma run_count X cfg es : forall f,
  wrap (count_bits X) (m_torrentsCount f) = m_torrentsCount f ->
  m_torrentsCount (fst (run X cfg f es))
  = wrap (count_bits X) (m_torrentsCount f + added es - removed es).
Proof.
  unfold added, removed.
  induction es as [|e es IH]; intros f Hf.
  - simpl. rewrite Z.add_0_r, Z.sub_0_r. symmetry. exact Hf.
  - cbn [run]. pose proof (handle_count X cfg f e) as He.
    destruct (handle X cfg f e) as [f1 c1]. cbn [fst] in He.
    specialize (IH f1). destruct (run X cfg f1 es) as [f2 c2].
    cbn [fst] in *. cbn [List.filter].
    destruct e as [t|h|ts|items|evt|dlg]; cbn [is_added is_removed] in *;
      cbn [length];
      rewrite IH by (rewrite He; try apply wrap_wrap; exact Hf);
      rewrite He, ?wrap_add_sub; f_equal; lia.
Qed.

(** C10: the counter is the number of "added" events minus the number of
    "removed" events (as a signed integer of the counter's width, hence
    exactly that difference whenever it is representable); every
    "removed" event decrements it whether or not its hash is selected, and
    a selection change leaves it alone. *)
Theorem torrents_count_added_minus_removed (X : Externals) (cfg : Cfg.t)
    (es : list Event) :
  m_torrentsCount (fst (run X cfg MainFrame_new es))
    = wrap (count_bits X) (added es - removed es)
  /\ (- 2 ^ (Z.pos (count_bits X) - 1) <= added es - removed es
        < 2 ^ (Z.pos (count_bits X) - 1) ->
      m_torrentsCount (fst (run X cfg MainFrame_new es))
        = added es - removed es)
  /\ (forall f hash,
        m_torrentsCount (fst (handle X cfg f (ptEVT_TORRENT_REMOVED hash)))
        = wrap (count_bits X) (m_torrentsCount f - 1))
  /\ (forall f items,
        m_torrentsCount
          (fst (handle X cfg f (wxEVT_DATAVIEW_SELECTION_CHANGED items)))
        = m_torrentsCount f).
Proof.
  assert (H0 : m_torrentsCount (fst (run X cfg MainFrame_new es))
               = wrap (count_bits X) (added es - removed es)).
  { rewrite run_count.
    - f_equal.
    - apply wrap_small. simpl.
      pose proof (Z.pow_pos_nonneg 2 (Z.pos (count_bits X) - 1)). lia. }
  split; [exact H0|split; [|split]].
  - intros Hr. rewrite H0. apply wrap_small, Hr.
  - intros f hash. apply (handle_count X cfg f (ptEVT_TORRENT_REMOVED hash)).
  - intros f items.
    apply (handle_count X cfg f (wxEVT_DATAVIEW_SELECTION_CHANGED items)).
Qed.

Lemma torrents_count_added_minus_removed_witness :
  let t1 := Sample.torrent 1 Sample.H1 "a" "D:/low" in
  let t2 := Sample.torrent 2 Sample.H2 "b" "D:/half" in
  m_torrentsCount
    (fst (run Sample.X Sample.cfg MainFrame_new
            [ ptEVT_TORRENT_ADDED t1; ptEVT_TORRENT_ADDED t2;
              wxEVT_DATAVIEW_SELECTION_CHANGED [t1];
              ptEVT_TORRENT_REMOVED Sample.H2;
              ptEVT_TORRENT_REMOVED Sample.H1;
              ptEVT_TORRENT_ADDED t1 ]))
  = 1.
Proof.
  intros t1 t2.
  apply (proj1 (proj2 (torrents_count_added_minus_removed Sample.X Sample.cfg
    [ ptEVT_TORRENT_ADDED t1; ptEVT_TORRENT_ADDED t2;
      wxEVT_DATAVIEW_SELECTION_CHANGED [t1];
      ptEVT_TORRENT_REMOVED Sample.H2;
      ptEVT_TORRENT_REMOVED Sample.H1;
      ptEVT_TORRENT_ADDED t1 ]))).
  vm_compute. split; [discriminate | reflexivity].
Defined.


(** ** The selection *)

Lemma In_app_Reset (calls : list Call) :
  In TorrentDetails_Reset (calls ++ [TorrentDetails_Reset]).
Proof. apply in_or_app. right. left. reflexivity. Qed.

(** C3 fails: with two torrents selected, removing one of them resets
    the details view although the other one is still selected. *)
Lemma removed_resets_with_selection_left :
  let t1 := Sample.torrent 1 Sample.H1 "a" "D:/low" in
  let t2 := Sample.torrent 2 Sample.H2 "b" "D:/half" in
  let f := fst (run Sample.X Sample.cfg MainFrame_new
                  [ ptEVT_TORRENT_ADDED t1; ptEVT_TORRENT_ADDED t2;
                    wxEVT_DATAVIEW_SELECTION_CHANGED [t1; t2] ]) in
  let r := handle Sample.X Sample.cfg f (ptEVT_TORRENT_REMOVED Sample.H1) in
  snd r = [ StatusBar_UpdateTorrentCount 1;
            TorrentListModel_RemoveTorrent Sample.H1;
            TorrentDetails_Reset ]
  /\ m_selection (fst r) !! Sample.H2 = Some t2
  /\ m_selection (fst r) <> ∅.
Proof.
  intros t1 t2 f r.
  assert (H2 : m_selection (fst r) !! Sample.H2 = Some t2)
    by (vm_compute; reflexivity).
  split; [vm_compute; reflexivity|split; [exact H2|]].
  intros He. rewrite He, lookup_empty in H2. discriminate.
Qed.

(** C3, amended: a "removed" event erases the hash from the selection,
    and the details view is reset if and only if the hash was selected
    when the event arrived, whether or not other torrents stay selected. *)
Theorem removed_resets_iff_selected (X : Externals) (cfg : Cfg.t)
    (f : MainFrame) (hash : lt.info_hash_t) :
  let r := handle X cfg f (ptEVT_TORRENT_REMOVED hash) in
  m_selection (fst r) = delete hash (m_selection f)
  /\ m_selection (fst r) !! hash = None
  /\ (In TorrentDetails_Reset (snd r) <-> is_Some (m_selection f !! hash)).
Proof.
  cbn [handle]. unfold on_torrent_removed. cbn [m_selection set_torrentsCount].
  destruct (m_selection f !! hash) as [t|] eqn:Hsel; cbn [fst snd].
  - split; [reflexivity|split].
    + apply lookup_delete_eq.
    + split; [eauto|]. intros _. apply In_app_Reset.
  - split; [|split].
    + symmetry. apply delete_id. exact Hsel.
    + exact Hsel.
    + split.
      * intros [H|[H|[]]]; discriminate.
      * intros [t Ht]. discriminate.
Qed.

Lemma removed_resets_iff_selected_witness :
  let t1 := Sample.torrent 1 Sample.H1 "a" "D:/low" in
  let f := fst (run Sample.X Sample.cfg MainFrame_new
                  [ ptEVT_TORRENT_ADDED t1;
                    wxEVT_DATAVIEW_SELECTION_CHANGED [t1] ]) in
  let r := handle Sample.X Sample.cfg f (ptEVT_TORRENT_REMOVED Sample.H1) in
  m_selection (fst r) !! Sample.H1 = None
  /\ In TorrentDetails_Reset (snd r).
Proof.
  intros t1 f r.
  destruct (removed_resets_iff_selected Sample.X Sample.cfg f Sample.H1)
    as (_ & Hgone & Hreset).
  split; [exact Hgone|]. apply Hreset. exists t1. vm_compute. reflexivity.
Defined.

Lemma std_map_insert_lookup k v (m : selection_map) h :
  std_map_insert k v m !! h =
  match m !! h with
  | Some x => Some x
  | None => if decide (k = h) then Some v else None
  end.
Proof.
  unfold std_map_insert.
  destruct (m !! k) as [x|] eqn:Hk.
  - destruct (m !! h) eqn:Hh; [reflexivity|].
    destruct (decide (k = h)) as [->|]; [congruence|reflexivity].
  - rewrite lookup_insert. destruct (decide (k = h)) as [->|].
    + rewrite Hk. reflexivity.
    + destruct (m !! h); reflexivity.
Qed.

Lemma selectedUpdated_loop_lookup (sel : selection_map) ts : forall acc h,
  selectedUpdated_loop sel ts acc !! h =
  match acc !! h with
  | Some x => Some x
  | None => match sel !! h with
            | Some _ => first_with_hash h ts
            | None => None
            end
  end.
Proof.
  unfold first_with_hash.
  induction ts as [|t ts IH]; intros acc h; cbn [selectedUpdated_loop List.find].
  - destruct (acc !! h); [reflexivity|]. destruct (sel !! h); reflexivity.
  - destruct (sel !! Handle.InfoHash t) as [s|] eqn:Hs.
    + rewrite IH, std_map_insert_lookup.
      destruct (acc !! h); [reflexivity|].
      destruct (decide (Handle.InfoHash t = h)) as [<-|Hne].
      * rewrite Hs, bool_decide_eq_true_2; reflexivity.
      * rewrite bool_decide_eq_false_2 by exact Hne. reflexivity.
    + rewrite IH. destruct (acc !! h); [reflexivity|].
      destruct (decide (Handle.InfoHash t = h)) as [<-|Hne].
      * rewrite Hs. reflexivity.
      * rewrite bool_decide_eq_false_2 by exact Hne. reflexivity.
Qed.

Lemma first_with_hash_In h t ts :
  In t ts -> Handle.InfoHash t = h ->
  exists t', first_with_hash h ts = Some t'.
Proof.
  intros Hin Hh. unfold first_with_hash.
  destruct (List.find _ ts) as [t'|] eqn:Hf; [eauto|].
  eapply find_none in Hf; [|exact Hin].
  apply bool_decide_eq_false in Hf. contradiction.
Qed.

Lemma first_with_hash_Some h t ts :
  first_with_hash h ts = Some t -> In t ts /\ Handle.InfoHash t = h.
Proof.
  intros Hf. apply find_some in Hf as [Hin Hb].
  apply bool_decide_eq_true in Hb. auto.
Qed.

(** C5 fails: the selection holds a handle at address 1; an "updated"
    batch carries a handle at address 9 with the same hash. The details
    view is refreshed with the batch's handle, but the selection still
    holds the old one. *)
Lemma updated_leaves_stored_handle :
  let t1 := Sample.torrent 1 Sample.H1 "a" "D:/half" in
  let t1' := Sample.torrent 9 Sample.H1 "a" "D:/half" in
  let f := fst (run Sample.X Sample.cfg MainFrame_new
                  [ ptEVT_TORRENT_ADDED t1;
                    wxEVT_DATAVIEW_SELECTION_CHANGED [t1] ]) in
  let r := handle Sample.X Sample.cfg f (ptEVT_TORRENTS_UPDATED [t1']) in
  m_selection f !! Sample.H1 = Some t1
  /\ m_selection (fst r) !! Sample.H1 = Some t1
  /\ t1 <> t1'
  /\ snd r = [ TorrentListModel_UpdateTorrents [t1'];
               TorrentDetails_Refresh {[ Sample.H1 := t1' ]} ].
Proof.
  intros t1 t1' f r.
  split; [vm_compute; reflexivity|].
  split; [vm_compute; reflexivity|].
  split; [discriminate|].
  vm_compute. reflexivity.
Qed.

(** C5, amended: an "updated" batch leaves the frame, and so the
    selection with its stored handles, as it was. The subset handed to the
    details view has exactly the selected hashes that occur in the batch,
    each with the first handle of the batch that has this hash; the view is
    refreshed with this subset if and only if it is not empty. *)
Theorem updated_refreshes_selected_subset (X : Externals) (cfg : Cfg.t)
    (f : MainFrame) (torrents : list Handle.t) :
  let r := handle X cfg f (ptEVT_TORRENTS_UPDATED torrents) in
  let subset := selectedUpdated_loop (m_selection f) torrents ∅ in
  fst r = f
  /\ (forall h, subset !! h =
                match m_selection f !! h with
                | Some _ => first_with_hash h torrents
                | None => None
                end)
  /\ (forall t, In t torrents ->
        match m_selection f !! Handle.InfoHash t with
        | Some _ => exists t', subset !! Handle.InfoHash t = Some t'
                               /\ In t' torrents
                               /\ Handle.InfoHash t' = Handle.InfoHash t
        | None => subset !! Handle.InfoHash t = None
        end)
  /\ (forall s, In (TorrentDetails_Refresh s) (snd r)
                <-> s = subset /\ subset <> ∅).
Proof.
  intros r subset.
  assert (Hlook : forall h, subset !! h =
                match m_selection f !! h with
                | Some _ => first_with_hash h torrents
                | None => None
                end).
  { intros h. unfold subset. rewrite selectedUpdated_loop_lookup, lookup_empty.
    reflexivity. }
  split; [reflexivity|split; [exact Hlook|split]].
  - intros t Hin. rewrite Hlook.
    destruct (m_selection f !! Handle.InfoHash t); [|reflexivity].
    destruct (first_with_hash_In _ t torrents Hin eq_refl) as [t' Ht'].
    exists t'. split; [exact Ht'|]. apply first_with_hash_Some, Ht'.
  - intros s. unfold r. cbn [handle]. unfold on_torrents_updated. cbn [snd].
    fold subset. change ([?a] ++ ?l) with (a :: l). split.
    + intros [H|H]; [discriminate|].
      apply in_app_or in H as [H|H].
      * destruct (0 <? Z.of_nat (base.size subset)) eqn:Hsz;
          cbn [In] in H; [|destruct H].
        destruct H as [H|[]]. injection H as <-. split; [reflexivity|].
        apply map_size_non_empty_iff. apply Z.ltb_lt in Hsz. lia.
      * pose proof (CheckDiskSpace_governor_calls X cfg torrents) as Hg.
        rewrite List.Forall_forall in Hg. apply Hg in H. discriminate.
    + intros [-> Hne]. right. apply in_or_app. left.
      apply map_size_non_empty_iff in Hne.
      destruct (0 <? Z.of_nat (base.size subset)) eqn:Hsz.
      * left. reflexivity.
      * apply Z.ltb_ge in Hsz. lia.
Qed.


Lemma updated_refreshes_selected_subset_witness :
  let t1 := Sample.torrent 1 Sample.H1 "a" "D:/half" in
  let t1' := Sample.torrent 9 Sample.H1 "a" "D:/half" in
  let t2 := Sample.torrent 2 Sample.H2 "b" "D:/half" in
  let f := fst (run Sample.X Sample.cfg MainFrame_new
                  [ ptEVT_TORRENT_ADDED t1; ptEVT_TORRENT_ADDED t2;
                    wxEVT_DATAVIEW_SELECTION_CHANGED [t1] ]) in
  let subset := selectedUpdated_loop (m_selection f) [t2; t1'; t1] ∅ in
  subset !! Sample.H1 = Some t1' /\ subset !! Sample.H2 = None.
Proof.
  intros t1 t1' t2 f subset.
  destruct (updated_refreshes_selected_subset Sample.X Sample.cfg f
              [t2; t1'; t1]) as (_ & Hlook & _).
  split; unfold subset; rewrite Hlook; vm_compute; reflexivity.
Defined.


(** ** AddTorrents: labels and pending hashes *)

Lemma match_labels_no_name X labels : forall p our,
  empty (label_match_name p) = true ->
  match_labels X labels p our = Returned (p, our).
Proof.
  induction labels as [|label rest IH]; intros p our Hn; cbn [match_labels].
  - reflexivity.
  - rewrite Hn. destruct (negb _ || _); apply IH, Hn.
Qed.

Lemma match_labels_first_match X labels : forall p our,
  descriptor_ok X labels p = true ->
  match_labels X labels p our =
  Returned match first_match X labels (label_match_name p) with
           | Some label =>
             (apply_label label p, AddParams.set_labelId (Label.id label) our)
           | None => (p, our)
           end.
Proof.
  intros p our. unfold descriptor_ok, first_match.
  destruct (empty (label_match_name p)) eqn:Hname.
  { intros _. apply match_labels_no_name, Hname. }
  cbn [orb]. unfold patterns_ok.
  induction labels as [|label rest IH]; intros Hok;
    cbn [match_labels forallb List.find] in *; [reflexivity|].
  apply andb_prop in Hok as [Hl Hrest]. specialize (IH Hrest).
  unfold label_applies, pattern_ok in *. rewrite Hname.
  destruct (Label.applyFilterEnabled label); cbn [negb orb andb] in *;
    [|exact IH].
  destruct (empty (Label.applyFilter label)); cbn [negb orb andb] in *;
    [exact IH|].
  destruct (regex_ctor X (Label.applyFilter label)) as [re|];
    [|discriminate].
  destruct (regex_search X (label_match_name p) re) as [[|]|].
  - reflexivity.
  - exact IH.
  - apply bool_decide_eq_true in Hl. destruct Hl as [? Hl]. discriminate.
Qed.

Lemma match_labels_keeps X labels : forall p our p' our',
  match_labels X labels p our = Returned (p', our') ->
  Params.info_hashes p' = Params.info_hashes p
  /\ Params.ti p' = Params.ti p
  /\ Params.name p' = Params.name p
  /\ Params.flags p' = Params.flags p.
Proof.
  induction labels as [|label rest IH]; intros p our p' our' H;
    cbn [match_labels] in H.
  - injection H as <- <-. auto.
  - destruct (negb _ || _); [eauto|].
    destruct (empty (label_match_name p)); [eauto|].
    destruct (regex_ctor X _) as [re|]; [|discriminate].
    destruct (regex_search X _ re) as [[|]|]; [|eauto|discriminate].
    injection H as <- <-.
    destruct (_ && _); auto.
Qed.

Lemma wants_metadata_defaults f s u p :
  wants_metadata (Params.set_userdata u (Params.set_save_path s
                    (Params.set_flags f p)))
  = wants_metadata p.
Proof. reflexivity. Qed.

Lemma set_defaults_spec X cfg labels params : forall hashes ps hashes',
  set_defaults X cfg labels params hashes = Returned (ps, hashes') ->
  hashes' = hashes ++ pending_hashes params
  /\ Forall2 same_descriptor params ps.
Proof.
  unfold pending_hashes.
  induction params as [|p rest IH]; intros hashes ps hashes' H;
    cbn [set_defaults] in H.
  - injection H as <- <-. rewrite app_nil_r. split; constructor.
  - rewrite wants_metadata_defaults in H.
    destruct (match_labels X labels _ _) as [[p1 our1]|e] eqn:Hm;
      [|discriminate].
    cbn [mbind outcome_bind] in H.
    destruct (set_defaults X cfg labels rest _) as [[ps1 hs1]|e] eqn:Hr;
      [|discriminate].
    cbn [mbind outcome_bind] in H. injection H as <- <-.
    apply IH in Hr as [-> HF].
    apply match_labels_keeps in Hm as (Hih & Hti & Hname & Hflags).
    split.
    + cbn [List.filter]. destruct (wants_metadata p); cbn [map].
      * rewrite <- app_assoc. reflexivity.
      * reflexivity.
    + constructor; [|exact HF]. repeat split; assumption.
Qed.

Lemma set_defaults_returns X cfg labels params : forall hashes,
  batch_ok X labels params = true ->
  exists ps hashes', set_defaults X cfg labels params hashes
                     = Returned (ps, hashes').
Proof.
  unfold batch_ok.
  induction params as [|p rest IH]; intros hashes Hok;
    cbn [set_defaults forallb] in *.
  - eauto.
  - apply andb_prop in Hok as [Hp Hok].
    rewrite match_labels_first_match by exact Hp.
    cbn [mbind outcome_bind].
    match goal with |- context [set_defaults X cfg labels rest ?h] =>
      destruct (IH h Hok) as (ps & hs & ->) end.
    destruct (first_match _ _ _); cbn [mbind outcome_bind]; eauto.
Qed.

Lemma AddTorrents_returns X cfg f params :
  batch_ok X (Cfg.GetLabels cfg) params = true ->
  exists r, AddTorrents X cfg f params = Returned r.
Proof.
  intros Hok. unfold AddTorrents. destruct params as [|p rest]; [eauto|].
  destruct (set_defaults_returns X cfg (Cfg.GetLabels cfg) (p :: rest) [] Hok)
    as (ps & hs & ->).
  cbn [mbind outcome_bind].
  destruct (Cfg.skip_add_torrent_dialog cfg); [eauto|].
  destruct (show_dialogs f ps). eauto.
Qed.

Lemma AddTorrents_classifies X cfg f params r :
  AddTorrents X cfg f params = Returned r ->
  hashes_out r = pending_hashes params
  /\ Forall2 same_descriptor params (params_out r).
Proof.
  unfold AddTorrents. destruct params as [|p rest].
  - intros [= <-]. split; constructor.
  - destruct (set_defaults X cfg _ (p :: rest) []) as [[ps hs]|e] eqn:Hs;
      [|discriminate].
    apply set_defaults_spec in Hs as [-> HF].
    cbn [mbind outcome_bind].
    destruct (Cfg.skip_add_torrent_dialog cfg).
    + intros [= <-]. auto.
    + destruct (show_dialogs f ps). intros [= <-]. auto.
Qed.


Lemma wants_metadata_iff (p : Params.t) :
  wants_metadata p = true <->
  Params.ti p = None
  /\ (lt.v1 (Params.info_hashes p) <> 0%N
      \/ lt.v2 (Params.info_hashes p) <> 0%N).
Proof.
  unfold wants_metadata, lt.has_v1, lt.has_v2, lt.is_all_zeros.
  rewrite andb_true_iff, orb_true_iff, !andb_true_iff, !negb_true_iff,
    !N.eqb_neq, bool_decide_eq_false.
  split.
  - intros [[[H _]|[H _]] Hti]; (split; [|tauto]);
      destruct (Params.ti p); try reflexivity; exfalso; apply Hti; eauto.
  - intros [Hti H]. split; [tauto|]. rewrite Hti. intros [? ?]. discriminate.
Qed.

(** C2 fails: classification is lost when the label pass raises. The
    two magnet links of this batch lack a torrent info and have a hash
    that is not all zeros; the first has no name and passes the labels,
    the second meets a label with an invalid pattern, and the call ends
    in the exception: no pending hash and no descriptor comes out. *)
Lemma classification_lost_when_pass_raises :
  let cfg := Cfg.set_labels [Sample.label 7 "(" "/broken"] Sample.cfg in
  let batch := [ Sample.magnet Sample.H1 "";
                 Sample.magnet Sample.H2 "Ubuntu.ISO" ] in
  map Params.info_hashes (List.filter wants_metadata batch)
    = [Sample.H1; Sample.H2]
  /\ set_defaults Sample.X cfg (Cfg.GetLabels cfg) batch []
     = Thrown regex_error
  /\ AddTorrents Sample.X cfg MainFrame_new batch = Thrown regex_error.
Proof. vm_compute. repeat split. Qed.

(** C2, amended: for every batch on which the call returns, that is, on
    which the label pass raises no exception, the pending hashes are
    exactly the hashes of the descriptors without a torrent info whose v1
    or v2 hash is not all zeros, one entry per such descriptor and in
    input order; a descriptor with a torrent info contributes none; every
    descriptor comes out at its input position with hash, torrent info
    and name unchanged. The call returns whenever, for every descriptor
    with a name, each label in use has a pattern that the constructor
    accepts and whose search of the name completes. *)
Theorem classification_pending_hashes (X : Externals) (cfg : Cfg.t)
    (f : MainFrame) (params : list Params.t) :
  (forall r, AddTorrents X cfg f params = Returned r ->
     hashes_out r
       = map Params.info_hashes (List.filter wants_metadata params)
     /\ length (params_out r) = length params
     /\ Forall2 same_descriptor params (params_out r))
  /\ (forall p, wants_metadata p = true <->
        Params.ti p = None
        /\ (lt.v1 (Params.info_hashes p) <> 0%N
            \/ lt.v2 (Params.info_hashes p) <> 0%N))
  /\ (batch_ok X (Cfg.GetLabels cfg) params = true ->
      exists r, AddTorrents X cfg f params = Returned r).
Proof.
  split; [|split].
  - intros r Hr. apply AddTorrents_classifies in Hr as [Hh HF].
    split; [exact Hh|]. split; [|exact HF].
    symmetry. exact (List.Forall2_length HF).
  - exact wants_metadata_iff.
  - apply AddTorrents_returns.
Qed.

(** The scenario of a magnet link named "Ubuntu.ISO" under a label with
    the pattern "ubuntu", followed by a torrent file and the same magnet
    link again. *)
Lemma classification_pending_hashes_witness :
  let cfg := Cfg.set_labels [Sample.label 7 "ubuntu" "/iso"] Sample.cfg in
  let batch := [ Sample.magnet Sample.H1 "Ubuntu.ISO";
                 Sample.file Sample.H2 "debian";
                 Sample.magnet Sample.H1 "Ubuntu.ISO" ] in
  exists r, AddTorrents Sample.X cfg MainFrame_new batch = Returned r
            /\ hashes_out r = [Sample.H1; Sample.H1]
            /\ length (params_out r) = 3%nat.
Proof.
  intros cfg batch.
  destruct (proj2 (proj2 (classification_pending_hashes
                            Sample.X cfg MainFrame_new batch)) eq_refl)
    as [r Hr].
  exists r. split; [exact Hr|].
  destruct (proj1 (classification_pending_hashes
                     Sample.X cfg MainFrame_new batch) r Hr)
    as (Hh & Hl & _).
  split; [exact Hh | exact Hl].
Defined.

(** C4 fails: a label with an invalid pattern makes the pass raise, also
    when a later label has a valid pattern that matches the name. *)
Lemma invalid_pattern_raises :
  let cfg := Cfg.set_labels [ Sample.label 7 "(" "/broken";
                              Sample.label 8 "ubuntu" "/iso" ] Sample.cfg in
  AddTorrents Sample.X cfg MainFrame_new [Sample.magnet Sample.H1 "Ubuntu.ISO"]
  = Thrown regex_error.
Proof. vm_compute. reflexivity. Qed.

(** C4, amended: the pass does not raise on a batch in which, for every
    descriptor that has a name, each label whose filter is enabled and not
    empty has a pattern that the constructor of the regular expression
    accepts and whose search of that name completes: [AddTorrents]
    returns. For each such descriptor the labels are tried in order, a
    label that does not apply is passed over and the first one that
    applies gives its identifier and, if enabled and not empty, its save
    path. *)
Theorem label_matcher_valid_patterns (X : Externals) (cfg : Cfg.t)
    (f : MainFrame) (params : list Params.t) :
  batch_ok X (Cfg.GetLabels cfg) params = true ->
  (exists r, AddTorrents X cfg f params = Returned r)
  /\ (forall p our,
        descriptor_ok X (Cfg.GetLabels cfg) p = true ->
        match_labels X (Cfg.GetLabels cfg) p our =
        Returned
          match first_match X (Cfg.GetLabels cfg) (label_match_name p) with
          | Some label =>
            (apply_label label p,
             AddParams.set_labelId (Label.id label) our)
          | None => (p, our)
          end).
Proof.
  intros Hok. split.
  - apply AddTorrents_returns, Hok.
  - intros p our Hp. apply match_labels_first_match, Hp.
Qed.

Lemma label_matcher_valid_patterns_witness :
  let cfg := Cfg.set_labels [ Sample.label 6 "debian" "/deb";
                              Sample.label 7 "ubuntu" "/iso";
                              Sample.label 8 "iso" "/images" ] Sample.cfg in
  let p := Sample.magnet Sample.H1 "Ubuntu.ISO" in
  match_labels Sample.X (Cfg.GetLabels cfg) p (AddParams_new Sample.X)
  = Returned (Params.set_save_path "/iso" p, {| AddParams.labelId := 7 |}).
Proof.
  intros cfg p.
  exact (proj2 (label_matcher_valid_patterns Sample.X cfg MainFrame_new [p]
                  eq_refl) p (AddParams_new Sample.X) eq_refl).
Defined.


(** ** AddTorrents: submission, dialogs and the metadata search *)

Lemma show_dialogs_spec params : forall f f' calls,
  show_dialogs f params = (f', calls) ->
  m_torrentsCount f' = m_torrentsCount f
  /\ m_selection f' = m_selection f
  /\ m_addDialogs f ⊆ m_addDialogs f'
  /\ Forall (fun c => is_show c = true) calls
  /\ forall p, In p params ->
       exists dlg, m_addDialogs f' !! dlg = Some p
                   /\ m_addDialogs f !! dlg = None
                   /\ In (AddTorrentDialog_Show dlg p) calls.
Proof.
  induction params as [|param rest IH]; intros f f' calls H;
    cbn [show_dialogs] in H.
  - injection H as <- <-. repeat split; try reflexivity; try constructor.
    intros p [].
  - set (dlg := fresh (dom (m_addDialogs f))) in *.
    assert (Hfresh : m_addDialogs f !! dlg = None).
    { apply not_elem_of_dom. apply is_fresh. }
    destruct (show_dialogs _ rest) as [f1 calls1] eqn:Hrest.
    injection H as <- <-.
    apply IH in Hrest as (Hc & Hs & Hsub & Hshow & Hall).
    cbn [m_torrentsCount m_selection m_addDialogs set_addDialogs] in *.
    assert (Hsub' : m_addDialogs f ⊆ m_addDialogs f1).
    { etrans; [|exact Hsub]. apply insert_subseteq, Hfresh. }
    repeat split; try assumption.
    + constructor; [reflexivity|exact Hshow].
    + intros p [<-|Hin].
      * exists dlg. split; [|split; [exact Hfresh|left; reflexivity]].
        eapply lookup_weaken; [|exact Hsub]. apply lookup_insert_eq.
      * destruct (Hall p Hin) as (d & Hd & Hnone & Hcall).
        exists d. split; [exact Hd|split; [|right; exact Hcall]].
        destruct (m_addDialogs f !! d) eqn:Hfd; [|reflexivity].
        eapply lookup_weaken in Hfd; [|apply insert_subseteq, Hfresh].
        rewrite Hfd in Hnone. discriminate.
Qed.

(** C6 fails: with the dialog skipped, a magnet link is handed to the
    session and the hash collected for it is not searched for. *)
Lemma skip_dialog_no_metadata_search :
  let cfg := Cfg.set_skip_add_torrent_dialog true Sample.cfg in
  let p := Sample.magnet Sample.H1 "Ubuntu.ISO" in
  exists r, AddTorrents Sample.X cfg MainFrame_new [p] = Returned r
            /\ hashes_out r = [Sample.H1]
            /\ calls_out r = map Session_AddTorrent (params_out r)
            /\ List.filter is_metadata_search (calls_out r) = [].
Proof.
  intros cfg p. eexists. split; [vm_compute; reflexivity|].
  repeat split.
Qed.

(** C6, amended: for a batch that is not empty, when the dialog is not
    skipped the calls are the dialogs shown, one per descriptor, followed
    by one metadata search that carries exactly the pending hashes; when
    the dialog is skipped the calls are one submission per descriptor, in
    order, and no metadata search. Either way the pending hashes and the
    descriptors are the same. *)
Theorem metadata_search_unless_skipped (X : Externals) (cfg : Cfg.t)
    (f : MainFrame) (params : list Params.t) (r : Added) :
  params <> [] ->
  AddTorrents X cfg f params = Returned r ->
  hashes_out r = pending_hashes params
  /\ (Cfg.skip_add_torrent_dialog cfg = false ->
      exists shows,
        calls_out r = shows ++ [Session_AddMetadataSearch (hashes_out r)]
        /\ Forall (fun c => is_show c = true) shows
        /\ length shows = length params)
  /\ (Cfg.skip_add_torrent_dialog cfg = true ->
      calls_out r = map Session_AddTorrent (params_out r)
      /\ List.filter is_metadata_search (calls_out r) = []
      /\ frame r = f)
  /\ (forall skip, exists r',
        AddTorrents X (Cfg.set_skip_add_torrent_dialog skip cfg) f params
          = Returned r'
        /\ params_out r' = params_out r
        /\ hashes_out r' = hashes_out r).
Proof.
  intros Hne Hr.
  destruct (AddTorrents_classifies _ _ _ _ _ Hr) as [Hh HF].
  split; [exact Hh|].
  unfold AddTorrents in *. destruct params as [|p rest]; [contradiction|].
  change (Cfg.GetLabels (Cfg.set_skip_add_torrent_dialog _ cfg))
    with (Cfg.GetLabels cfg).
  assert (Hcfg : forall skip hs ps,
            set_defaults X (Cfg.set_skip_add_torrent_dialog skip cfg)
              (Cfg.GetLabels cfg) ps hs
            = set_defaults X cfg (Cfg.GetLabels cfg) ps hs).
  { intros skip hs ps. revert hs.
    induction ps as [|q qs IH]; intros hs; cbn [set_defaults]; [reflexivity|].
    change (Cfg.default_save_path (Cfg.set_skip_add_torrent_dialog skip cfg))
      with (Cfg.default_save_path cfg).
    destruct (match_labels X _ _ _) as [[q1 our1]|e]; [|reflexivity].
    cbn [mbind outcome_bind]. rewrite IH. reflexivity. }
  destruct (set_defaults X cfg _ (p :: rest) []) as [[ps hs]|e] eqn:Hs;
    [|discriminate].
  cbn [mbind outcome_bind] in Hr.
  assert (Hlen : length ps = length (p :: rest)).
  { apply set_defaults_spec in Hs as [_ HF']. symmetry.
    exact (List.Forall2_length HF'). }
  assert (Hps : params_out r = ps /\ hashes_out r = hs).
  { destruct (Cfg.skip_add_torrent_dialog cfg).
    - injection Hr as <-. auto.
    - destruct (show_dialogs f ps). injection Hr as <-. auto. }
  destruct Hps as [Hps Hhs].
  split; [|split].
  - intros Hskip. rewrite Hskip in Hr.
    destruct (show_dialogs f ps) as [f1 calls] eqn:Hshow.
    injection Hr as <-. exists calls. split; [reflexivity|].
    apply show_dialogs_spec in Hshow as Hspec.
    destruct Hspec as (_ & _ & _ & Hall & _).
    split; [exact Hall|]. rewrite <- Hlen.
    clear -Hshow. revert f f1 calls Hshow.
    induction ps as [|q qs IH]; intros f f1 calls Hshow;
      cbn [show_dialogs] in Hshow.
    + injection Hshow as <- <-. reflexivity.
    + destruct (show_dialogs _ qs) as [f2 calls2] eqn:Hq.
      injection Hshow as <- <-. cbn [length]. f_equal. eapply IH, Hq.
  - intros Hskip. rewrite Hskip in Hr. injection Hr as <-.
    cbn [calls_out params_out frame]. repeat split.
    clear. induction ps as [|q qs IH]; [reflexivity|exact IH].
  - intros skip. rewrite Hcfg, Hs. cbn [mbind outcome_bind].
    rewrite Hps, Hhs.
    change (Cfg.skip_add_torrent_dialog
              (Cfg.set_skip_add_torrent_dialog skip cfg)) with skip.
    destruct skip; [eauto|].
    destruct (show_dialogs f ps). eauto.
Qed.

Lemma metadata_search_unless_skipped_witness :
  let p := Sample.magnet Sample.H1 "Ubuntu.ISO" in
  let q := Sample.file Sample.H2 "debian" in
  exists r, AddTorrents Sample.X Sample.cfg MainFrame_new [p; q] = Returned r
            /\ hashes_out r = [Sample.H1]
            /\ List.filter is_metadata_search (calls_out r)
               = [Session_AddMetadataSearch [Sample.H1]].
Proof.
  intros p q.
  destruct (AddTorrents Sample.X Sample.cfg MainFrame_new [p; q])
    as [r|e] eqn:Hr; [|discriminate Hr].
  exists r. split; [reflexivity|].
  destruct (metadata_search_unless_skipped Sample.X Sample.cfg MainFrame_new
              [p; q] r ltac:(discriminate) Hr) as (Hh & Hshow & _).
  split; [exact Hh|].
  destruct (Hshow eq_refl) as (shows & -> & Hall & _).
  rewrite List.filter_app, Hh. cbn [List.filter is_metadata_search].
  replace (List.filter is_metadata_search shows) with (@nil Call);
    [reflexivity|].
  clear -Hall. induction Hall as [|c l Hc _ IH]; [reflexivity|].
  cbn [List.filter]. destruct c; try discriminate Hc. exact IH.
Defined.


(** ** Metadata found *)

Lemma In_metadata_found f evt dlg e :
  In (wxPostEvent dlg e) (snd (on_metadata_found f evt))
  <-> e = evt /\ is_Some (m_addDialogs f !! dlg).
Proof.
  unfold on_metadata_found. cbn [snd]. rewrite in_map_iff. split.
  - intros (d & [= -> ->] & Hin). split; [reflexivity|].
    apply in_map_iff in Hin as ([d p] & <- & Hin).
    apply list_elem_of_In, elem_of_map_to_list in Hin. eauto.
  - intros [-> [p Hp]]. exists dlg. split; [reflexivity|].
    apply in_map_iff. exists (dlg, p). split; [reflexivity|].
    apply list_elem_of_In, elem_of_map_to_list. exact Hp.
Qed.

Lemma NoDup_metadata_found f evt :
  List.NoDup (snd (on_metadata_found f evt)).
Proof.
  unfold on_metadata_found. cbn [snd]. apply NoDup_ListNoDup.
  assert (Hinj : Inj eq eq (fun dlg => wxPostEvent dlg evt)).
  { intros d1 d2 [= ->]. reflexivity. }
  apply (NoDup_fmap_2 (fun dlg => wxPostEvent dlg evt)).
  apply NoDup_fst_map_to_list.
Qed.

(** C9 fails: two dialogs are open, one for a magnet link with hash H1
    and one for a magnet link with hash H2; the metadata found for H1 is
    posted to the dialog that was opened for H2 as well. *)
Lemma metadata_posted_to_other_hash :
  let p1 := Sample.magnet Sample.H1 "a" in
  let p2 := Sample.magnet Sample.H2 "b" in
  let evt := {| lt.ti_name := "a"; lt.ti_info_hashes := Sample.H1 |} in
  exists r dlg p,
    AddTorrents Sample.X Sample.cfg MainFrame_new [p1; p2] = Returned r
    /\ m_addDialogs (frame r) !! dlg = Some p
    /\ Params.info_hashes p = Sample.H2
    /\ Sample.H2 <> lt.ti_info_hashes evt
    /\ In (wxPostEvent dlg evt)
          (snd (handle Sample.X Sample.cfg (frame r)
                  (ptEVT_TORRENT_METADATA_FOUND evt))).
Proof.
  intros p1 p2 evt.
  destruct (AddTorrents Sample.X Sample.cfg MainFrame_new [p1; p2])
    as [r|e] eqn:Hr; [|discriminate Hr].
  injection Hr as <-.
  eexists _, 1%N, _. split; [reflexivity|].
  split; [vm_compute; reflexivity|].
  split; [reflexivity|]. split; [discriminate|].
  apply In_metadata_found. split; [reflexivity|].
  vm_compute. eauto.
Qed.

(** C9, amended: a metadata-found event leaves the frame as it is and is
    posted, once, to every dialog that is open when it arrives, whatever
    hash the dialog was opened for, and to nothing else. Every descriptor
    for which [AddTorrents] opened a dialog has a dialog in that set, so
    the event reaches it. *)
Theorem metadata_found_posted_to_open_dialogs (f : MainFrame)
    (evt : lt.torrent_info) (X : Externals) (cfg : Cfg.t) :
  let r := handle X cfg f (ptEVT_TORRENT_METADATA_FOUND evt) in
  fst r = f
  /\ (forall dlg e, In (wxPostEvent dlg e) (snd r)
                    <-> e = evt /\ is_Some (m_addDialogs f !! dlg))
  /\ (forall c, In c (snd r) -> exists dlg, c = wxPostEvent dlg evt)
  /\ List.NoDup (snd r)
  /\ (forall f0 params added,
        Cfg.skip_add_torrent_dialog cfg = false ->
        AddTorrents X cfg f0 params = Returned added ->
        frame added = f ->
        forall p, In p (params_out added) ->
          exists dlg, m_addDialogs f !! dlg = Some p
                      /\ In (wxPostEvent dlg evt) (snd r)).
Proof.
  intros r. unfold r. cbn [handle].
  split; [reflexivity|]. split; [apply In_metadata_found|].
  split; [|split; [apply NoDup_metadata_found|]].
  - intros c Hc. unfold on_metadata_found in Hc. cbn [snd] in Hc.
    apply in_map_iff in Hc as (d & <- & _). eauto.
  - intros f0 params added Hskip Hadd Hf p Hp.
    unfold AddTorrents in Hadd. destruct params as [|q qs].
    + injection Hadd as <-. destruct Hp.
    + destruct (set_defaults X cfg _ (q :: qs) []) as [[ps hs]|e];
        [|discriminate].
      cbn [mbind outcome_bind] in Hadd. rewrite Hskip in Hadd.
      destruct (show_dialogs f0 ps) as [f1 calls] eqn:Hshow.
      injection Hadd as <-. cbn [frame params_out] in *. subst f1.
      apply show_dialogs_spec in Hshow as (_ & _ & _ & _ & Hall).
      destruct (Hall p Hp) as (dlg & Hd & _ & _).
      exists dlg. split; [exact Hd|].
      apply In_metadata_found. split; [reflexivity|]. eauto.
Qed.

Lemma metadata_found_posted_to_open_dialogs_witness :
  let p := Sample.magnet Sample.H1 "a" in
  let evt := {| lt.ti_name := "a"; lt.ti_info_hashes := Sample.H1 |} in
  match AddTorrents Sample.X Sample.cfg MainFrame_new [p] with
  | Returned added =>
    forall q, In q (params_out added) ->
      exists dlg,
        m_addDialogs (frame added) !! dlg = Some q
        /\ In (wxPostEvent dlg evt)
              (snd (handle Sample.X Sample.cfg (frame added)
                      (ptEVT_TORRENT_METADATA_FOUND evt)))
  | Thrown _ => False
  end.
Proof.
  intros p evt.
  destruct (AddTorrents Sample.X Sample.cfg MainFrame_new [p])
    as [added|e] eqn:Hadd; [|discriminate Hadd].
  intros q Hq.
  exact (proj2 (proj2 (proj2 (proj2
           (metadata_found_posted_to_open_dialogs (frame added) evt
              Sample.X Sample.cfg))))
           MainFrame_new [p] added eq_refl Hadd eq_refl q Hq).
Defined.

(** * Further properties *)

(** ** The selection across events *)

Lemma fold_insert_lookup (items : list Handle.t) : forall (acc : selection_map) h,
  fold_left (fun m torrent =>
               std_map_insert (Handle.InfoHash torrent) torrent m)
            items acc !! h
  = match acc !! h with
    | Some x => Some x
    | None => first_with_hash h items
    end.
Proof.
  unfold first_with_hash.
  induction items as [|t items IH]; intros acc h; cbn [fold_left List.find].
  - destruct (acc !! h); reflexivity.
  - rewrite IH, std_map_insert_lookup.
    destruct (acc !! h); [reflexivity|].
    destruct (decide (Handle.InfoHash t = h)) as [Heq|Hne].
    + rewrite bool_decide_eq_true_2 by exact Heq. reflexivity.
    + rewrite bool_decide_eq_false_2 by exact Hne. reflexivity.
Qed.

Lemma on_selection_changed_lookup f items h :
  m_selection (fst (on_selection_changed f items)) !! h
  = first_with_hash h items.
Proof.
  unfold on_selection_changed. destruct items as [|t items].
  - cbn [fst m_selection set_selection]. apply lookup_empty.
  - cbn [fst m_selection set_selection].
    rewrite fold_insert_lookup, lookup_empty. reflexivity.
Qed.

(** X1: a selection change replaces the selection wholesale. Whatever was
    selected before, each hash is then mapped to the first of the given
    items that has this hash and to nothing if there is none; so the same
    items give the same selection from any two frames, and handling the
    change a second time changes nothing. The counter and the dialogs are
    not touched. *)
Theorem selection_changed_replaces (X : Externals) (cfg : Cfg.t)
    (f g : MainFrame) (items : list Handle.t) :
  let f' := fst (handle X cfg f (wxEVT_DATAVIEW_SELECTION_CHANGED items)) in
  (forall h, m_selection f' !! h = first_with_hash h items)
  /\ m_selection f'
     = m_selection
         (fst (handle X cfg g (wxEVT_DATAVIEW_SELECTION_CHANGED items)))
  /\ fst (handle X cfg f' (wxEVT_DATAVIEW_SELECTION_CHANGED items)) = f'
  /\ m_torrentsCount f' = m_torrentsCount f
  /\ m_addDialogs f' = m_addDialogs f.
Proof.
  intros f'. unfold f'. cbn [handle].
  set (f1 := fst (on_selection_changed f items)).
  assert (Hsel : forall a b, m_selection (fst (on_selection_changed a items))
                 = m_selection (fst (on_selection_changed b items))).
  { intros a b. apply map_eq. intros h.
    rewrite !on_selection_changed_lookup. reflexivity. }
  split; [intros h; apply on_selection_changed_lookup|].
  split; [apply Hsel|].
  split.
  - specialize (Hsel f1 f). fold f1 in Hsel.
    assert (Hc : m_torrentsCount f1 = m_torrentsCount f
                 /\ m_addDialogs f1 = m_addDialogs f).
    { unfold f1, on_selection_changed. destruct items; split; reflexivity. }
    destruct Hc as [Hc Hd].
    assert (Hf1 : forall a, fst (on_selection_changed a items)
                  = {| m_torrentsCount := m_torrentsCount a;
                       m_selection :=
                         m_selection (fst (on_selection_changed a items));
                       m_addDialogs := m_addDialogs a |}).
    { intros a. unfold on_selection_changed. destruct items; reflexivity. }
    rewrite (Hf1 f1), Hsel. fold f1. destruct f1; reflexivity.
  - unfold f1, on_selection_changed. destruct items; split; reflexivity.
Qed.

(** X2: what the display layer is told on a selection change: with no
    item selected the selection is emptied and the details view is reset
    and nothing else; otherwise the view is refreshed, once, with the new
    selection, and not reset. *)
Theorem selection_changed_signals (X : Externals) (cfg : Cfg.t)
    (f : MainFrame) (items : list Handle.t) :
  let r := handle X cfg f (wxEVT_DATAVIEW_SELECTION_CHANGED items) in
  (items = [] -> m_selection (fst r) = ∅ /\ snd r = [TorrentDetails_Reset])
  /\ (items <> [] ->
      snd r = [TorrentDetails_Refresh (m_selection (fst r))]
      /\ m_selection (fst r) <> ∅).
Proof.
  cbn [handle]. split.
  - intros ->. split; reflexivity.
  - intros Hne. destruct items as [|t items]; [contradiction|].
    split; [reflexivity|].
    intros He.
    pose proof (on_selection_changed_lookup f (t :: items)
                  (Handle.InfoHash t)) as Hl.
    rewrite He, lookup_empty in Hl. unfold first_with_hash in Hl.
    cbn [List.find] in Hl.
    rewrite bool_decide_eq_true_2 in Hl by reflexivity. discriminate.
Qed.

Lemma selection_changed_signals_witness :
  let t1 := Sample.torrent 1 Sample.H1 "a" "D:/low" in
  let t2 := Sample.torrent 2 Sample.H2 "b" "D:/half" in
  snd (handle Sample.X Sample.cfg MainFrame_new
         (wxEVT_DATAVIEW_SELECTION_CHANGED [t1; t2]))
  = [TorrentDetails_Refresh
       (m_selection (fst (handle Sample.X Sample.cfg MainFrame_new
                            (wxEVT_DATAVIEW_SELECTION_CHANGED [t1; t2]))))].
Proof.
  intros t1 t2.
  apply (proj2 (selection_changed_signals Sample.X Sample.cfg MainFrame_new
                  [t1; t2])).
  discriminate.
Defined.


Lemma handle_selection X cfg f e :
  m_selection (fst (handle X cfg f e)) =
  match e with
  | ptEVT_TORRENT_REMOVED hash => delete hash (m_selection f)
  | wxEVT_DATAVIEW_SELECTION_CHANGED items =>
    m_selection (fst (on_selection_changed f items))
  | _ => m_selection f
  end.
Proof.
  destruct e as [t|h|ts|items|evt|dlg]; try reflexivity.
  apply (removed_resets_iff_selected X cfg f h).
Qed.


Lemma fold_delete_lookup {K} `{Countable K} {A} (ks : list K) :
  forall (m : gmap K A) k,
  fold_left (fun m k => delete k m) ks m !! k
  = if bool_decide (k ∈ ks) then None else m !! k.
Proof.
  induction ks as [|k0 ks IH]; intros m k; cbn [fold_left].
  - rewrite bool_decide_eq_false_2; [reflexivity|]. apply not_elem_of_nil.
  - rewrite IH. destruct (decide (k ∈ ks)) as [Hin|Hnin].
    + rewrite !bool_decide_eq_true_2; [reflexivity| |exact Hin].
      apply elem_of_cons. auto.
    + rewrite (bool_decide_eq_false_2 _ Hnin).
      destruct (decide (k = k0)) as [->|Hne].
      * rewrite bool_decide_eq_true_2 by (apply elem_of_cons; auto).
        apply lookup_delete_eq.
      * rewrite bool_decide_eq_false_2.
        -- apply lookup_delete_ne. congruence.
        -- rewrite elem_of_cons. tauto.
Qed.

(** X3: between two selection changes the selection only loses entries:
    after any events other than a selection change, it is the selection
    from before without the hashes of the "removed" events, and every
    other entry still holds the handle it held. *)
Theorem selection_only_loses_removed (X : Externals) (cfg : Cfg.t)
    (es : list Event) (f : MainFrame) :
  forallb (fun e => negb (is_selection_changed e)) es = true ->
  m_selection (fst (run X cfg f es))
  = fold_left (fun m h => delete h m) (removed_hashes es) (m_selection f)
  /\ forall h,
       m_selection (fst (run X cfg f es)) !! h
       = if bool_decide (h ∈ removed_hashes es) then None
         else m_selection f !! h.
Proof.
  intros Hes.
  assert (Hrun : m_selection (fst (run X cfg f es))
                 = fold_left (fun m h => delete h m) (removed_hashes es)
                             (m_selection f)).
  { revert f. induction es as [|e es IH]; intros f; [reflexivity|].
    cbn [forallb] in Hes. apply andb_prop in Hes as [He Hes].
    cbn [run]. pose proof (handle_selection X cfg f e) as Hsel.
    destruct (handle X cfg f e) as [f1 c1]. cbn [fst] in Hsel.
    specialize (IH Hes f1). destruct (run X cfg f1 es) as [f2 c2].
    cbn [fst] in *. rewrite IH, Hsel.
    destruct e; try reflexivity. discriminate He. }
  split; [exact Hrun|].
  intros h. rewrite Hrun. apply fold_delete_lookup.
Qed.

Lemma selection_only_loses_removed_witness :
  let t1 := Sample.torrent 1 Sample.H1 "a" "D:/low" in
  let t2 := Sample.torrent 2 Sample.H2 "b" "D:/half" in
  let f := fst (handle Sample.X Sample.cfg MainFrame_new
                  (wxEVT_DATAVIEW_SELECTION_CHANGED [t1; t2])) in
  let f' := fst (run Sample.X Sample.cfg f
                   [ ptEVT_TORRENTS_UPDATED [t1; t2];
                     ptEVT_TORRENT_REMOVED Sample.H1;
                     ptEVT_TORRENT_ADDED t1 ]) in
  m_selection f' !! Sample.H1 = None /\ m_selection f' !! Sample.H2 = Some t2.
Proof.
  intros t1 t2 f f'.
  destruct (selection_only_loses_removed Sample.X Sample.cfg
              [ ptEVT_TORRENTS_UPDATED [t1; t2];
                ptEVT_TORRENT_REMOVED Sample.H1;
                ptEVT_TORRENT_ADDED t1 ] f eq_refl) as [_ Hl].
  split; unfold f'; rewrite Hl; vm_compute; reflexivity.
Defined.

Lemma handle_selection_keyed X cfg f e :
  selection_keyed (m_selection f) ->
  selection_keyed (m_selection (fst (handle X cfg f e))).
Proof.
  intros Hk. rewrite handle_selection.
  destruct e as [t|hash|ts|items|evt|dlg]; try exact Hk.
  - intros h t Hd. apply lookup_delete_Some in Hd as [_ Hd]. eauto.
  - intros h t Hl. rewrite on_selection_changed_lookup in Hl.
    apply first_with_hash_Some in Hl. tauto.
Qed.

(** X4: the selection is always keyed by the handles' own hashes: in the
    frame reached from the constructor's state by any sequence of events,
    a handle stored under a hash reports this hash; and a call of
    [AddTorrents] that returns leaves the selection as it is. *)
Theorem selection_keyed_by_own_hash (X : Externals) (cfg : Cfg.t)
    (es : list Event) (params : list Params.t) :
  let f := fst (run X cfg MainFrame_new es) in
  selection_keyed (m_selection f)
  /\ forall added, AddTorrents X cfg f params = Returned added ->
       m_selection (frame added) = m_selection f.
Proof.
  intros f. split.
  - unfold f. clear f.
    assert (Hgen : forall f0, selection_keyed (m_selection f0) ->
              selection_keyed (m_selection (fst (run X cfg f0 es)))).
    { induction es as [|e es IH]; intros f0 Hk; [exact Hk|].
      cbn [run]. pose proof (handle_selection_keyed X cfg f0 e Hk) as Hk1.
      destruct (handle X cfg f0 e) as [f1 c1]. cbn [fst] in Hk1.
      specialize (IH f1 Hk1). destruct (run X cfg f1 es) as [f2 c2].
      exact IH. }
    apply Hgen. intros h t Hl. cbn in Hl. rewrite lookup_empty in Hl.
    discriminate.
  - intros added Hadd. unfold AddTorrents in Hadd.
    destruct params as [|p ps]; [injection Hadd as <-; reflexivity|].
    destruct (set_defaults X cfg _ (p :: ps) []) as [[qs hs]|e];
      [|discriminate].
    cbn [mbind outcome_bind] in Hadd.
    destruct (Cfg.skip_add_torrent_dialog cfg).
    + injection Hadd as <-. reflexivity.
    + destruct (show_dialogs f qs) as [f1 calls] eqn:Hshow.
      injection Hadd as <-. cbn [frame].
      apply show_dialogs_spec in Hshow. tauto.
Qed.

Lemma selection_keyed_by_own_hash_witness :
  let t1 := Sample.torrent 1 Sample.H1 "a" "D:/low" in
  let p := Sample.magnet Sample.H2 "b" in
  let f := fst (run Sample.X Sample.cfg MainFrame_new
                  [wxEVT_DATAVIEW_SELECTION_CHANGED [t1]]) in
  match AddTorrents Sample.X Sample.cfg f [p] with
  | Returned added => m_selection (frame added) !! Sample.H1 = Some t1
  | Thrown _ => False
  end.
Proof.
  intros t1 p f.
  destruct (AddTorrents Sample.X Sample.cfg f [p]) as [added|e] eqn:Hadd;
    [|discriminate Hadd].
  rewrite (proj2 (selection_keyed_by_own_hash Sample.X Sample.cfg
                    [wxEVT_DATAVIEW_SELECTION_CHANGED [t1]] [p]) added Hadd).
  vm_compute. reflexivity.
Defined.

(** X5: an "added" event followed by a "removed" event leaves the counter
    where it was (for a counter value that is representable) and the
    dialogs untouched; the selection loses the removed hash, if it had it. *)
Theorem added_then_removed_nets_out (X : Externals) (cfg : Cfg.t)
    (f : MainFrame) (torrent : Handle.t) (hash : lt.info_hash_t) :
  wrap (count_bits X) (m_torrentsCount f) = m_torrentsCount f ->
  fst (run X cfg f [ptEVT_TORRENT_ADDED torrent; ptEVT_TORRENT_REMOVED hash])
  = set_selection (delete hash (m_selection f)) f.
Proof.
  intros Hc. cbn [run handle on_torrent_added fst].
  unfold on_torrent_removed.
  cbn [m_torrentsCount m_selection set_torrentsCount set_selection].
  replace (wrap (count_bits X) (wrap (count_bits X) (m_torrentsCount f + 1) - 1))
    with (m_torrentsCount f).
  - destruct (m_selection f !! hash) eqn:Hs; cbn [fst]; unfold set_selection,
      set_torrentsCount; cbn; [reflexivity|].
    rewrite delete_id by exact Hs. reflexivity.
  - replace (wrap (count_bits X) (m_torrentsCount f + 1) - 1)
      with (wrap (count_bits X) (m_torrentsCount f + 1) + (-1)) by lia.
    rewrite wrap_add.
    replace (m_torrentsCount f + 1 + -1) with (m_torrentsCount f) by lia.
    symmetry. exact Hc.
Qed.

Lemma added_then_removed_nets_out_witness :
  let t1 := Sample.torrent 1 Sample.H1 "a" "D:/low" in
  fst (run Sample.X Sample.cfg MainFrame_new
         [ptEVT_TORRENT_ADDED t1; ptEVT_TORRENT_REMOVED Sample.H1])
  = set_selection (delete Sample.H1 (m_selection MainFrame_new)) MainFrame_new.
Proof.
  intros t1.
  apply (added_then_removed_nets_out Sample.X Sample.cfg MainFrame_new t1
           Sample.H1).
  reflexivity.
Defined.


(** ** The dialogs across calls and events *)

Lemma show_dialogs_size params : forall f,
  base.size (m_addDialogs (fst (show_dialogs f params)))
  = (base.size (m_addDialogs f) + length params)%nat.
Proof.
  induction params as [|p ps IH]; intros f; cbn [show_dialogs].
  - cbn. lia.
  - specialize (IH (set_addDialogs
                      (<[fresh (dom (m_addDialogs f)) := p]> (m_addDialogs f))
                      f)).
    destruct (show_dialogs _ ps) as [f1 calls]. cbn [fst] in *.
    rewrite IH. cbn [m_addDialogs set_addDialogs length].
    rewrite map_size_insert_None; [lia|].
    apply not_elem_of_dom, is_fresh.
Qed.

(** X6: when the dialog is not skipped, a call of [AddTorrents] that
    returns opens one new dialog per descriptor: the open dialogs grow by
    the length of the batch, every dialog that was open stays open with
    its parameters, and the counter is not touched. With the dialog
    skipped the frame is left as it is. *)
Theorem AddTorrents_opens_one_dialog_each (X : Externals) (cfg : Cfg.t)
    (f : MainFrame) (params : list Params.t) (added : Added) :
  AddTorrents X cfg f params = Returned added ->
  m_torrentsCount (frame added) = m_torrentsCount f
  /\ m_addDialogs f ⊆ m_addDialogs (frame added)
  /\ (Cfg.skip_add_torrent_dialog cfg = false ->
      base.size (m_addDialogs (frame added))
      = (base.size (m_addDialogs f) + length params)%nat)
  /\ (Cfg.skip_add_torrent_dialog cfg = true -> frame added = f).
Proof.
  intros Hadd.
  destruct (AddTorrents_classifies _ _ _ _ _ Hadd) as [_ HF].
  apply List.Forall2_length in HF.
  unfold AddTorrents in Hadd. destruct params as [|p ps].
  - injection Hadd as <-. cbn. repeat split; try reflexivity. lia.
  - destruct (set_defaults X cfg _ (p :: ps) []) as [[qs hs]|e];
      [|discriminate].
    cbn [mbind outcome_bind] in Hadd.
    destruct (Cfg.skip_add_torrent_dialog cfg).
    + injection Hadd as <-. cbn [frame]. repeat split; try reflexivity.
      discriminate.
    + pose proof (show_dialogs_size qs f) as Hsize.
      destruct (show_dialogs f qs) as [f1 calls] eqn:Hshow.
      injection Hadd as <-. cbn [frame params_out fst] in *.
      apply show_dialogs_spec in Hshow as (Hc & _ & Hsub & _).
      repeat split; try assumption.
      * intros _. rewrite Hsize, HF. reflexivity.
      * discriminate.
Qed.

Lemma AddTorrents_opens_one_dialog_each_witness :
  let p := Sample.magnet Sample.H1 "Ubuntu.ISO" in
  let q := Sample.file Sample.H2 "debian" in
  match AddTorrents Sample.X Sample.cfg MainFrame_new [p; q; p] with
  | Returned added => base.size (m_addDialogs (frame added)) = 3%nat
  | Thrown _ => False
  end.
Proof.
  intros p q.
  destruct (AddTorrents Sample.X Sample.cfg MainFrame_new [p; q; p])
    as [added|e] eqn:Hadd; [|discriminate Hadd].
  exact (proj1 (proj2 (proj2 (AddTorrents_opens_one_dialog_each
           Sample.X Sample.cfg MainFrame_new [p; q; p] added Hadd))) eq_refl).
Defined.

(** X7: once a dialog is closed, metadata is no longer posted to it: a
    metadata-found event that follows the close event of a dialog is
    posted to exactly the other dialogs that were open. *)
Theorem closed_dialog_gets_no_metadata (X : Externals) (cfg : Cfg.t)
    (f : MainFrame) (closed : N) (evt : lt.torrent_info) :
  let calls := snd (run X cfg f [ wxEVT_CLOSE_WINDOW closed;
                                  ptEVT_TORRENT_METADATA_FOUND evt ]) in
  forall dlg e,
    In (wxPostEvent dlg e) calls
    <-> e = evt /\ dlg <> closed /\ is_Some (m_addDialogs f !! dlg).
Proof.
  intros calls dlg e. unfold calls.
  cbn [run handle on_dialog_close fst snd app].
  destruct (on_metadata_found _ evt) as [f2 c2] eqn:Hm.
  cbn [snd]. rewrite app_nil_r.
  replace c2 with (snd (on_metadata_found
                          (set_addDialogs (delete closed (m_addDialogs f)) f)
                          evt)) by (rewrite Hm; reflexivity).
  rewrite In_metadata_found.
  cbn [m_addDialogs set_addDialogs].
  destruct (decide (dlg = closed)) as [->|Hne].
  - rewrite lookup_delete_eq. split.
    + intros [_ [? ?]]. discriminate.
    + intros (_ & Hc & _). contradiction.
  - rewrite lookup_delete_ne by congruence. tauto.
Qed.



(** ** Labels and defaults *)

Lemma match_labels_nameless X labels : forall p our,
  empty (label_match_name p) = true ->
  match_labels X labels p our = Returned (p, our).
Proof.
  induction labels as [|label rest IH]; intros p our Hn; cbn [match_labels].
  - reflexivity.
  - rewrite Hn. destruct (negb _ || _); apply IH, Hn.
Qed.

Lemma label_match_name_defaults f s u p :
  label_match_name (Params.set_userdata u (Params.set_save_path s
                      (Params.set_flags f p)))
  = label_match_name p.
Proof. reflexivity. Qed.

Lemma set_defaults_nameless X cfg labels params : forall hashes,
  Forall (fun p => empty (label_match_name p) = true) params ->
  exists hashes',
    set_defaults X cfg labels params hashes
    = Returned
        (map (fun p =>
                Params.set_userdata (Some (AddParams_new X))
                  (Params.set_save_path (Cfg.default_save_path cfg)
                     (Params.set_flags
                        (N.lor (Params.flags p) lt.duplicate_is_error) p)))
             params,
         hashes').
Proof.
  induction params as [|p ps IH]; intros hashes Hall; cbn [set_defaults map].
  - eauto.
  - apply Forall_cons in Hall as [Hp Hps].
    rewrite match_labels_nameless
      by (rewrite label_match_name_defaults; exact Hp).
    cbn [mbind outcome_bind].
    match goal with |- context [set_defaults X cfg labels ps ?h] =>
      destruct (IH h Hps) as [hs ->] end.
    cbn [mbind outcome_bind]. eauto.
Qed.

(** X9: descriptors without a name are never labelled and never make the
    pass raise, whatever the patterns of the labels are: for a batch in
    which no descriptor has a name of its own or a torrent info with a
    name, [AddTorrents] returns, and every descriptor comes out at the
    default save path with the fresh user data. *)
Theorem nameless_batch_never_raises (X : Externals) (cfg : Cfg.t)
    (f : MainFrame) (params : list Params.t) :
  Forall (fun p => empty (label_match_name p) = true) params ->
  exists added,
    AddTorrents X cfg f params = Returned added
    /\ params_out added
       = map (fun p =>
                Params.set_userdata (Some (AddParams_new X))
                  (Params.set_save_path (Cfg.default_save_path cfg)
                     (Params.set_flags
                        (N.lor (Params.flags p) lt.duplicate_is_error) p)))
             params.
Proof.
  intros Hall. unfold AddTorrents. destruct params as [|p ps]; [eauto|].
  destruct (set_defaults_nameless X cfg (Cfg.GetLabels cfg) (p :: ps) [] Hall)
    as [hs ->].
  cbn [mbind outcome_bind].
  destruct (Cfg.skip_add_torrent_dialog cfg); [eauto|].
  destruct (show_dialogs f _). eauto.
Qed.

Lemma nameless_batch_never_raises_witness :
  let cfg := Cfg.set_labels [Sample.label 7 "(" "/broken"] Sample.cfg in
  exists added,
    AddTorrents Sample.X cfg MainFrame_new [Sample.magnet Sample.H1 ""]
    = Returned added
    /\ map Params.save_path (params_out added) = ["C:/Downloads"%string].
Proof.
  intros cfg.
  destruct (nameless_batch_never_raises Sample.X cfg MainFrame_new
              [Sample.magnet Sample.H1 ""]) as (added & Hadd & Hout).
  - repeat constructor.
  - exists added. split; [exact Hadd|]. rewrite Hout. reflexivity.
Defined.

Lemma first_match_app X l1 l2 name label :
  first_match X l1 name = Some label ->
  first_match X (l1 ++ l2) name = Some label.
Proof.
  unfold first_match. destruct (empty name); [discriminate|].
  induction l1 as [|l l1 IH]; cbn [List.find app]; [discriminate|].
  destruct (label_applies X name l); [auto|exact IH].
Qed.

(** X10: the labels behind the first match are never looked at. If the
    labels up to the first one that applies have patterns that the
    constructor accepts and whose search of the descriptor's name
    completes, the descriptor gets that label whatever follows it in the
    set, also when a later label has an invalid pattern. *)
Theorem labels_after_first_match_unused (X : Externals)
    (l1 l2 : list Label.t) (p : Params.t) (our : AddParams.t)
    (label : Label.t) :
  patterns_ok X l1 (label_match_name p) = true ->
  first_match X l1 (label_match_name p) = Some label ->
  match_labels X (l1 ++ l2) p our
  = Returned (apply_label label p,
              AddParams.set_labelId (Label.id label) our).
Proof.
  unfold first_match, patterns_ok.
  destruct (empty (label_match_name p)) eqn:Hname; [discriminate|].
  induction l1 as [|l l1 IH]; cbn [forallb List.find app match_labels];
    [discriminate|].
  intros Hok Hfind. apply andb_prop in Hok as [Hl Hok].
  unfold label_applies, pattern_ok in *. rewrite Hname.
  destruct (Label.applyFilterEnabled l); cbn [negb orb andb] in *;
    [|apply IH; assumption].
  destruct (empty (Label.applyFilter l)); cbn [negb orb andb] in *;
    [apply IH; assumption|].
  destruct (regex_ctor X (Label.applyFilter l)) as [re|]; [|discriminate].
  destruct (regex_search X (label_match_name p) re) as [[|]|].
  - injection Hfind as <-. reflexivity.
  - apply IH; assumption.
  - apply bool_decide_eq_true in Hl. destruct Hl as [? Hl]. discriminate.
Qed.

Lemma labels_after_first_match_unused_witness :
  let p := Sample.magnet Sample.H1 "Ubuntu.ISO" in
  match_labels Sample.X
    ([Sample.label 6 "debian" "/deb"; Sample.label 7 "ubuntu" "/iso"]
     ++ [Sample.label 8 "(" "/broken"])
    p (AddParams_new Sample.X)
  = Returned (Params.set_save_path "/iso" p, {| AddParams.labelId := 7 |}).
Proof.
  intros p.
  exact (labels_after_first_match_unused Sample.X
           [Sample.label 6 "debian" "/deb"; Sample.label 7 "ubuntu" "/iso"]
           [Sample.label 8 "(" "/broken"] p (AddParams_new Sample.X)
           (Sample.label 7 "ubuntu" "/iso") eq_refl eq_refl).
Defined.

Lemma match_labels_result X labels : forall p our p' our',
  match_labels X labels p our = Returned (p', our') ->
  (p' = p /\ our' = our)
  \/ exists label,
       In label labels
       /\ Label.applyFilterEnabled label = true
       /\ our' = AddParams.set_labelId (Label.id label) our
       /\ p' = apply_label label p.
Proof.
  induction labels as [|label rest IH]; intros p our p' our' H;
    cbn [match_labels] in H.
  - injection H as <- <-. auto.
  - assert (Hrest : match_labels X rest p our = Returned (p', our') ->
              (p' = p /\ our' = our)
              \/ exists l, In l (label :: rest)
                   /\ Label.applyFilterEnabled l = true
                   /\ our' = AddParams.set_labelId (Label.id l) our
                   /\ p' = apply_label l p).
    { intros Hr. apply IH in Hr as [Hr|(l & Hin & Hr)]; [auto|].
      right. exists l. split; [right; exact Hin|exact Hr]. }
    destruct (Label.applyFilterEnabled label) eqn:Hen; cbn [negb orb] in H;
      [|auto].
    destruct (empty (Label.applyFilter label)); [auto|].
    destruct (empty (label_match_name p)); [auto|].
    destruct (regex_ctor X _) as [re|]; [|discriminate].
    destruct (regex_search X _ re) as [[|]|]; [|auto|discriminate].
    injection H as <- <-. right. exists label.
    split; [left; reflexivity|]. auto.
Qed.

Lemma set_defaults_labelled X cfg params : forall hashes ps hashes',
  set_defaults X cfg (Cfg.GetLabels cfg) params hashes = Returned (ps, hashes')
  -> Forall (labelled_by X cfg) ps.
Proof.
  induction params as [|p rest IH]; intros hashes ps hashes' H;
    cbn [set_defaults] in H.
  - injection H as <- <-. constructor.
  - destruct (match_labels X _ _ _) as [[p1 our1]|e] eqn:Hm; [|discriminate].
    cbn [mbind outcome_bind] in H.
    destruct (set_defaults X cfg _ rest _) as [[ps1 hs1]|e] eqn:Hr;
      [|discriminate].
    cbn [mbind outcome_bind] in H. injection H as <- <-.
    constructor; [|eapply IH, Hr].
    exists our1. split; [reflexivity|].
    apply match_labels_result in Hm as [[-> ->]|(l & Hin & Hen & -> & ->)].
    + left. split; reflexivity.
    + right. exists l. split; [exact Hin|]. split; [exact Hen|].
      split; [reflexivity|]. unfold apply_label, size.
      destruct (Label.savePath l) as [|c s] eqn:Hsp; cbn [String.length].
      * left. split; [reflexivity|]. right. reflexivity.
      * replace (0 <? Z.of_nat (S (String.length s))) with true
          by (symmetry; apply Z.ltb_lt; lia).
        destruct (Label.savePathEnabled l); cbn [andb].
        -- right. split; [reflexivity|]. split; [reflexivity|discriminate].
        -- left. split; [reflexivity|]. left. reflexivity.
Qed.

(** X11: the save path and user data a descriptor arrives with are always
    replaced. After a call of [AddTorrents] that returns, every descriptor
    has user data, and it is either unlabelled at the configured default
    save path, or labelled with a label of the set whose filter is
    enabled, at that label's save path if this is enabled and not empty
    and at the default save path otherwise. *)
Theorem descriptors_get_defaults_or_label (X : Externals) (cfg : Cfg.t)
    (f : MainFrame) (params : list Params.t) (added : Added) :
  AddTorrents X cfg f params = Returned added ->
  Forall (labelled_by X cfg) (params_out added).
Proof.
  unfold AddTorrents. destruct params as [|p ps].
  - intros [= <-]. constructor.
  - destruct (set_defaults X cfg _ (p :: ps) []) as [[qs hs]|e] eqn:Hs;
      [|discriminate].
    apply set_defaults_labelled in Hs. cbn [mbind outcome_bind].
    destruct (Cfg.skip_add_torrent_dialog cfg).
    + intros [= <-]. exact Hs.
    + destruct (show_dialogs f qs). intros [= <-]. exact Hs.
Qed.

Lemma descriptors_get_defaults_or_label_witness :
  let cfg := Cfg.set_labels [Sample.label 7 "ubuntu" "/iso"] Sample.cfg in
  match AddTorrents Sample.X cfg MainFrame_new
          [Sample.magnet Sample.H1 "Ubuntu.ISO"; Sample.file Sample.H2 "x"]
  with
  | Returned added => Forall (labelled_by Sample.X cfg) (params_out added)
  | Thrown _ => False
  end.
Proof.
  intros cfg.
  destruct (AddTorrents Sample.X cfg MainFrame_new _) as [added|e] eqn:Hadd;
    [|discriminate Hadd].
  exact (descriptors_get_defaults_or_label Sample.X cfg MainFrame_new _ added
           Hadd).
Defined.


(** ** The governor at a limit of zero or less *)

Lemma f32_div_nonneg (x y : float) :
  nonneg x -> nonneg y -> nonneg (f32_div x y).
Proof.
  unfold f32_div, SFdiv.
  destruct x as [sx|sx| |sx mx ex], y as [sy|sy| |sy my ey];
    cbn [nonneg]; intros Hx Hy; subst; try reflexivity; try exact I.
  destruct (SFdiv_core_binary 24 128 _ _ _ _) as [[mz ez] lz].
  apply (binary_round_aux_sign false).
Qed.

Lemma f32_of_Z_nonpos (z : Z) : z <= 0 -> nonpos (f32_of_Z z).
Proof.
  unfold f32_of_Z, binary_normalize. intros Hz.
  destruct z as [|p|p]; [exact I|lia|].
  unfold binary_round. destruct (shl_align _ _ _) as [mz ez].
  pose proof (binary_round_aux_sign true (Z.pos mz) ez loc_Exact) as Hs.
  destruct (binary_round_aux 24 128 true (Z.pos mz) ez loc_Exact);
    cbn [nonpos]; auto.
Qed.

Lemma f32_div_100_nonpos (x : float) :
  nonpos x -> nonpos (f32_div x (f32_of_Z 100)).
Proof.
  replace (f32_of_Z 100) with (S754_finite false 13107200 (-17))
    by (vm_compute; reflexivity).
  unfold f32_div, SFdiv.
  destruct x as [sx|sx| |sx mx ex]; cbn [nonpos]; intros Hx; subst;
    try reflexivity; try exact I.
  destruct (SFdiv_core_binary 24 128 _ _ _ _) as [[mz ez] lz].
  pose proof (binary_round_aux_sign (xorb true false) mz ez lz) as Hs.
  destruct (binary_round_aux 24 128 (xorb true false) mz ez lz);
    cbn [nonpos]; auto.
Qed.

Lemma nonneg_not_below_nonpos (x y : float) :
  nonneg x -> nonpos y -> f32_ltb x y = false.
Proof.
  unfold f32_ltb, SFltb.
  destruct x as [sx|sx| |sx mx ex], y as [sy|sy| |sy my ey];
    cbn [nonneg nonpos SFcompare]; intros Hx Hy; subst; reflexivity.
Qed.

(** X12: with a limit of zero percent or less the governor never pauses:
    no available ratio of a disk query is below such a limit, so
    [CheckDiskSpace] makes no call at all, whatever the disks report. *)
Theorem governor_idle_without_positive_limit (X : Externals) (cfg : Cfg.t)
    (torrents : list Handle.t) :
  Cfg.pause_on_low_disk_space_limit cfg <= 0 ->
  CheckDiskSpace X cfg torrents = [].
Proof.
  intros Hlim. unfold CheckDiskSpace.
  destruct (negb _); [reflexivity|]. destruct (WIN32 X); [|reflexivity].
  induction torrents as [|t ts IH]; [reflexivity|].
  cbn [flat_map]. rewrite IH, app_nil_r, CheckDiskSpace_body_low.
  replace (low_disk_space X (Cfg.pause_on_low_disk_space_limit cfg) t)
    with false; [reflexivity|].
  symmetry. unfold low_disk_space.
  destruct (GetDiskFreeSpaceEx X _) as [[free total]|]; [|reflexivity].
  apply nonneg_not_below_nonpos.
  - apply f32_div_nonneg; apply float_of_uint64_nonneg.
  - apply f32_div_100_nonpos, f32_of_Z_nonpos, Hlim.
Qed.

Lemma governor_idle_without_positive_limit_witness :
  let t1 := Sample.torrent 1 Sample.H1 "a" "D:/low" in
  let t3 := Sample.torrent 3 Sample.H2 "c" "D:/none" in
  CheckDiskSpace Sample.X (set_limit 0 Sample.cfg) [t1; t3] = [].
Proof.
  intros t1 t3.
  apply (governor_idle_without_positive_limit Sample.X
           (set_limit 0 Sample.cfg) [t1; t3]).
  discriminate.
Defined.


(** ** HandleParams *)

Lemma ParseTorrentFiles_omap P paths : forall params,
  ParseTorrentFiles P params paths
  = params ++ omap (file_params P) paths.
Proof.
  unfold file_params.
  induction paths as [|path rest IH]; intros params;
    cbn [ParseTorrentFiles omap list_omap].
  - rewrite app_nil_r. reflexivity.
  - destruct (torrent_info_of_file P path); rewrite IH.
    + rewrite <- app_assoc. reflexivity.
    + reflexivity.
Qed.

Lemma parse_magnets_omap P magnets : forall params,
  parse_magnets P params magnets
  = params ++ omap (parse_magnet_uri P) magnets.
Proof.
  induction magnets as [|m rest IH]; intros params;
    cbn [parse_magnets omap list_omap].
  - rewrite app_nil_r. reflexivity.
  - destruct (parse_magnet_uri P m); rewrite IH.
    + rewrite <- app_assoc. reflexivity.
    + reflexivity.
Qed.

Lemma omap_length_le {A B} (g : A -> option B) (l : list A) :
  (length (omap g l) <= length l)%nat.
Proof.
  induction l as [|a l IH]; cbn [omap list_omap length]; [lia|].
  destruct (g a); cbn [length]; lia.
Qed.

Lemma HandleParams_AddTorrents X P cfg f files magnets :
  HandleParams X P cfg f files magnets
  = AddTorrents X cfg f
      (omap (file_params P) files ++ omap (parse_magnet_uri P) magnets).
Proof.
  unfold HandleParams. f_equal.
  assert (Hf : match files with
               | [] => []
               | _ => ParseTorrentFiles P [] files
               end = omap (file_params P) files).
  { destruct files; [reflexivity|]. rewrite ParseTorrentFiles_omap.
    reflexivity. }
  rewrite Hf.
  destruct magnets; [rewrite app_nil_r; reflexivity|].
  apply parse_magnets_omap.
Qed.

(** X13: [HandleParams] hands to [AddTorrents] the descriptors of the
    files that parse, in order, followed by those of the magnet links that
    parse, in order. An entry that does not parse is skipped and does not
    stop the entries after it; the batch is never longer than the input. *)
Theorem HandleParams_skips_unparsed (X : Externals) (P : Parsers)
    (cfg : Cfg.t) (f : MainFrame) (files magnets : list string) :
  let batch := omap (file_params P) files
               ++ omap (parse_magnet_uri P) magnets in
  HandleParams X P cfg f files magnets = AddTorrents X cfg f batch
  /\ (length batch <= length files + length magnets)%nat
  /\ (forall p, In p batch <->
        (exists path, In path files /\ file_params P path = Some p)
        \/ (exists magnet, In magnet magnets
                           /\ parse_magnet_uri P magnet = Some p)).
Proof.
  intros batch. split; [apply HandleParams_AddTorrents|split].
  - unfold batch. rewrite length_app.
    pose proof (omap_length_le (file_params P) files).
    pose proof (omap_length_le (parse_magnet_uri P) magnets). lia.
  - intros p. unfold batch. rewrite in_app_iff.
    rewrite <- !list_elem_of_In, !list_elem_of_omap.
    setoid_rewrite <- list_elem_of_In. reflexivity.
Qed.

(** X14: when no file and no magnet link parses (in particular when both
    lists are empty), [HandleParams] does nothing: it returns with the
    frame as it was and without a call, whatever the labels are. *)
Theorem HandleParams_nothing_parsed (X : Externals) (P : Parsers)
    (cfg : Cfg.t) (f : MainFrame) (files magnets : list string) :
  Forall (fun path => torrent_info_of_file P path = None) files ->
  Forall (fun magnet => parse_magnet_uri P magnet = None) magnets ->
  HandleParams X P cfg f files magnets
  = Returned {| frame := f; params_out := []; hashes_out := [];
                calls_out := [] |}.
Proof.
  intros Hf Hm. rewrite HandleParams_AddTorrents.
  replace (omap (file_params P) files) with (@nil Params.t).
  - replace (omap (parse_magnet_uri P) magnets) with (@nil Params.t);
      [reflexivity|].
    induction Hm as [|m ms Hm _ IH]; [reflexivity|].
    cbn [omap list_omap]. rewrite Hm. exact IH.
  - induction Hf as [|p ps Hp _ IH]; [reflexivity|].
    cbn [omap list_omap]. unfold file_params at 1. rewrite Hp. exact IH.
Qed.

Lemma HandleParams_nothing_parsed_witness :
  let cfg := Cfg.set_labels [Sample.label 7 "(" "/broken"] Sample.cfg in
  HandleParams Sample.X SampleParsers.P cfg MainFrame_new
    ["notes.txt"%string] ["not-a-magnet"%string]
  = Returned {| frame := MainFrame_new; params_out := []; hashes_out := [];
                calls_out := [] |}.
Proof.
  intros cfg.
  apply (HandleParams_nothing_parsed Sample.X SampleParsers.P cfg
           MainFrame_new ["notes.txt"%string] ["not-a-magnet"%string]);
    repeat constructor.
Defined.

Lemma pending_hashes_app ps qs :
  pending_hashes (ps ++ qs) = pending_hashes ps ++ pending_hashes qs.
Proof.
  unfold pending_hashes. rewrite List.filter_app, map_app. reflexivity.
Qed.

Lemma wants_metadata_with_ti ti p :
  wants_metadata (set_ti (Some ti) p) = false.
Proof.
  unfold wants_metadata. cbn [Params.ti set_ti].
  rewrite bool_decide_eq_true_2 by eauto. apply andb_false_r.
Qed.

Lemma pending_hashes_files P files :
  pending_hashes (omap (file_params P) files) = [].
Proof.
  unfold pending_hashes.
  induction files as [|path rest IH]; [reflexivity|].
  cbn [omap list_omap]. unfold file_params at 1.
  destruct (torrent_info_of_file P path) as [ti|]; [|exact IH].
  cbn [List.filter]. rewrite wants_metadata_with_ti. exact IH.
Qed.

(** X15: torrent files are never searched for metadata. When
    [HandleParams] returns, the pending hashes are those of the parsed
    magnet links that have a hash which is not all zeros and no torrent
    info; the descriptors that come from files contribute none, because
    they carry their torrent info. *)
Theorem HandleParams_pending_only_magnets (X : Externals) (P : Parsers)
    (cfg : Cfg.t) (f : MainFrame) (files magnets : list string)
    (added : Added) :
  HandleParams X P cfg f files magnets = Returned added ->
  hashes_out added = pending_hashes (omap (parse_magnet_uri P) magnets)
  /\ length (params_out added)
     = length (omap (file_params P) files
               ++ omap (parse_magnet_uri P) magnets).
Proof.
  rewrite HandleParams_AddTorrents. intros Hadd.
  apply AddTorrents_classifies in Hadd as [-> HF].
  rewrite pending_hashes_app, pending_hashes_files. split; [reflexivity|].
  symmetry. exact (List.Forall2_length HF).
Qed.

Lemma HandleParams_pending_only_magnets_witness :
  match HandleParams Sample.X SampleParsers.P Sample.cfg MainFrame_new
          ["a.torrent"%string; "notes.txt"%string]
          ["magnet:1"%string; "not-a-magnet"%string; "magnet:2"%string]
  with
  | Returned added =>
    hashes_out added = [Sample.H1; Sample.H2]
    /\ length (params_out added) = 3%nat
  | Thrown _ => False
  end.
Proof.
  destruct (HandleParams Sample.X SampleParsers.P Sample.cfg MainFrame_new _ _)
    as [added|e] eqn:Hadd; [|discriminate Hadd].
  exact (HandleParams_pending_only_magnets Sample.X SampleParsers.P Sample.cfg
           MainFrame_new _ _ added Hadd).
Defined.


(** ** The labels menu *)

Lemma delete_label_items_filter I (front back : list MenuItem) :
  delete_label_items I (length front) (front ++ back)
  = List.filter (fun item => item_id item <=? ptID_EVT_LABELS_USER I) front
    ++ back.
Proof.
  revert back. induction front as [|item front IH] using rev_ind;
    intros back; [reflexivity|].
  rewrite length_app, Nat.add_1_r. cbn [length delete_label_items].
  rewrite <- app_assoc. cbn [app].
  rewrite list_lookup_middle by reflexivity.
  rewrite List.filter_app. cbn [List.filter].
  destruct (item_id item <=? ptID_EVT_LABELS_USER I).
  - rewrite IH, <- app_assoc. reflexivity.
  - rewrite delete_middle, IH, app_nil_r. reflexivity.
Qed.

Lemma fold_append_items {A B} (g : A -> B) (l : list A) : forall menu,
  fold_left (fun menu a => menu ++ [g a]) l menu = menu ++ map g l.
Proof.
  induction l as [|a l IH]; intros menu; cbn [fold_left map].
  - rewrite app_nil_r. reflexivity.
  - rewrite IH, <- app_assoc. reflexivity.
Qed.

Lemma CreateLabelMenuItems_eq I cfg menu :
  CreateLabelMenuItems I cfg menu
  = List.filter (fun item => item_id item <=? ptID_EVT_LABELS_USER I) menu
    ++ map (label_item I) (Cfg.GetLabels cfg).
Proof.
  unfold CreateLabelMenuItems. rewrite fold_append_items. f_equal.
  rewrite <- (app_nil_r menu) at 2.
  rewrite delete_label_items_filter, app_nil_r. reflexivity.
Qed.

(** X16: [CreateLabelMenuItems] keeps, in their order, exactly the items
    whose identifier is at most [ptID_EVT_LABELS_USER], removes all
    others, and appends one item per configured label, in the order of
    the labels, with the label's name and the identifier
    [ptID_EVT_LABELS_USER + label.id]. *)
Theorem CreateLabelMenuItems_rebuilds (I : Ids) (cfg : Cfg.t)
    (menu : list MenuItem) :
  CreateLabelMenuItems I cfg menu
  = List.filter (fun item => item_id item <=? ptID_EVT_LABELS_USER I) menu
    ++ map (fun label =>
              {| item_id := ptID_EVT_LABELS_USER I + Label.id label;
                 item_text := Label.name label |})
           (Cfg.GetLabels cfg).
Proof. apply CreateLabelMenuItems_eq. Qed.

Lemma filter_filter_same {A} (P : A -> bool) (l : list A) :
  List.filter P (List.filter P l) = List.filter P l.
Proof.
  induction l as [|a l IH]; [reflexivity|]. cbn [List.filter].
  destruct (P a) eqn:Ha; [|exact IH].
  cbn [List.filter]. rewrite Ha, IH. reflexivity.
Qed.

(** X17: rebuilding the labels menu replaces the label items. When every
    label of the old configuration has a positive identifier, rebuilding
    for a new configuration gives the same menu as if the old labels had
    never been added; in particular rebuilding twice for the same
    configuration is the same as rebuilding once. *)
Theorem CreateLabelMenuItems_replaces_labels (I : Ids) (old new : Cfg.t)
    (menu : list MenuItem) :
  Forall (fun label => 0 < Label.id label) (Cfg.GetLabels old) ->
  CreateLabelMenuItems I new (CreateLabelMenuItems I old menu)
  = CreateLabelMenuItems I new menu.
Proof.
  intros Hpos. rewrite !CreateLabelMenuItems_eq. f_equal.
  rewrite List.filter_app, filter_filter_same.
  replace (List.filter _ (map (label_item I) (Cfg.GetLabels old)))
    with (@nil MenuItem); [apply app_nil_r|].
  induction Hpos as [|label labels Hl _ IH]; [reflexivity|].
  cbn [map List.filter item_id label_item].
  replace (ptID_EVT_LABELS_USER I + Label.id label
           <=? ptID_EVT_LABELS_USER I) with false; [exact IH|].
  symmetry. apply Z.leb_gt. lia.
Qed.

Lemma CreateLabelMenuItems_replaces_labels_witness :
  let old := Cfg.set_labels [Sample.label 7 "ubuntu" "/iso"] Sample.cfg in
  let new := Cfg.set_labels [Sample.label 8 "debian" "/deb"] Sample.cfg in
  let menu := [ {| item_id := 1000; item_text := "none" |} ] in
  CreateLabelMenuItems sample_ids new (CreateLabelMenuItems sample_ids old menu)
  = [ {| item_id := 1000; item_text := "none" |};
      {| item_id := 1009; item_text := "debian" |} ].
Proof.
  intros old new menu.
  rewrite (CreateLabelMenuItems_replaces_labels sample_ids old new menu).
  - reflexivity.
  - repeat constructor.
Defined.

(** X18: the labels menu and its handler fit together. Choosing any item
    of the rebuilt menu whose identifier is above [ptID_EVT_LABELS_USER]
    sets the label filter to the identifier of a configured label with
    the item's text; and every configured label with a positive
    identifier has such an item. *)
Theorem labels_menu_round_trip (F : Type) (I : Ids) (cfg : Cfg.t)
    (menu : list MenuItem) :
  (forall item,
     In item (CreateLabelMenuItems I cfg menu) ->
     item_id item > ptID_EVT_LABELS_USER I ->
     exists label,
       In label (Cfg.GetLabels cfg)
       /\ item_text item = Label.name label
       /\ on_labels_menu (F := F) I (item_id item)
          = [TorrentListModel_SetLabelFilter (Label.id label)])
  /\ (forall label,
        In label (Cfg.GetLabels cfg) -> 0 < Label.id label ->
        In (label_item I label) (CreateLabelMenuItems I cfg menu)
        /\ on_labels_menu (F := F) I (item_id (label_item I label))
           = [TorrentListModel_SetLabelFilter (Label.id label)]).
Proof.
  assert (Hset : forall label, 0 < Label.id label ->
            on_labels_menu (F := F) I (item_id (label_item I label))
            = [TorrentListModel_SetLabelFilter (Label.id label)]).
  { intros label Hpos. unfold on_labels_menu. cbn [item_id label_item].
    replace (ptID_EVT_LABELS_USER I + Label.id label
             >? ptID_EVT_LABELS_USER I) with true
      by (symmetry; apply Z.gtb_lt; lia).
    do 2 f_equal. lia. }
  rewrite CreateLabelMenuItems_eq. split.
  - intros item Hin Hid. apply in_app_or in Hin as [Hin|Hin].
    + apply filter_In in Hin as [_ Hle]. apply Z.leb_le in Hle. lia.
    + apply in_map_iff in Hin as (label & <- & Hin).
      exists label. split; [exact Hin|]. split; [reflexivity|].
      apply Hset. cbn [item_id label_item] in Hid. lia.
  - intros label Hin Hpos. split; [|apply Hset, Hpos].
    apply in_or_app. right. apply in_map, Hin.
Qed.

Lemma labels_menu_round_trip_witness :
  let cfg := Cfg.set_labels [Sample.label 7 "ubuntu" "/iso"] Sample.cfg in
  on_labels_menu (F := unit) sample_ids 1008
  = [TorrentListModel_SetLabelFilter 7].
Proof.
  intros cfg.
  exact (proj2 (proj2 (labels_menu_round_trip unit sample_ids cfg [])
                  (Sample.label 7 "ubuntu" "/iso")
                  (or_introl eq_refl) eq_refl)).
Defined.


Lemma std_insert_lookup {K} `{Countable K} {V} (k : K) (v : V)
    (m : gmap K V) (j : K) :
  std_insert k v m !! j =
  match m !! j with
  | Some x => Some x
  | None => if decide (k = j) then Some v else None
  end.
Proof.
  unfold std_insert.
  destruct (m !! k) as [x|] eqn:Hk.
  - destruct (m !! j) eqn:Hj; [reflexivity|].
    destruct (decide (k = j)) as [->|]; [congruence|reflexivity].
  - rewrite lookup_insert. destruct (decide (k = j)) as [->|].
    + rewrite Hk. reflexivity.
    + destruct (m !! j); reflexivity.
Qed.

Lemma fold_label_insert_lookup (labels : list Label.t) :
  forall (acc : gmap Z (string * string)) i,
  fold_left (fun labels label =>
               std_insert (Label.id label)
                          (Label.name label, Label.color label) labels)
            labels acc !! i
  = match acc !! i with
    | Some x => Some x
    | None =>
      match List.find (fun label => Label.id label =? i) labels with
      | Some label => Some (Label.name label, Label.color label)
      | None => None
      end
    end.
Proof.
  induction labels as [|label labels IH]; intros acc i;
    cbn [fold_left List.find].
  - destruct (acc !! i); reflexivity.
  - rewrite IH, std_insert_lookup.
    destruct (acc !! i); [reflexivity|].
    destruct (decide (Label.id label = i)) as [Heq|Hne].
    + rewrite (proj2 (Z.eqb_eq _ _) Heq). reflexivity.
    + rewrite (proj2 (Z.eqb_neq _ _) Hne). reflexivity.
Qed.

(** X19: [UpdateLabels] makes one call, with a map that has an entry for
    exactly the identifiers of the configured labels; when several labels
    share an identifier, the entry holds the name and colour of the first
    of them. *)
Theorem UpdateLabels_first_label_wins (F : Type) (cfg : Cfg.t) :
  exists labels,
    UpdateLabels (F := F) cfg = [TorrentListModel_UpdateLabels labels]
    /\ forall i,
         labels !! i
         = match List.find (fun label => Label.id label =? i)
                           (Cfg.GetLabels cfg) with
           | Some label => Some (Label.name label, Label.color label)
           | None => None
           end.
Proof.
  eexists. split; [reflexivity|].
  intros i. rewrite fold_label_insert_lookup, lookup_empty. reflexivity.
Qed.

(** ** The filters menu *)

Lemma add_filters_snoc {F} X I (s : Filters F) fs name filter :
  add_filters X I s (fs ++ [(name, filter)])
  = AddFilter X I (add_filters X I s fs) name filter.
Proof. unfold add_filters. rewrite fold_left_app. reflexivity. Qed.

(** The state after the filters [fs] were added to the constructor's
    state: the menu is the "none" item followed by one item per filter,
    numbered from [ptID_EVT_FILTERS_USER + 1], and [m_filters] files each
    filter under the number of its item. *)
Lemma add_filters_state {F} X I view (fs : list (string * F)) :
  let s := add_filters X I (Filters_new view) fs in
  m_menuItemFilters s = negb (bool_decide (fs = []))
  /\ length (m_filtersMenu s)
     = (if bool_decide (fs = []) then 0 else S (length fs))%nat
  /\ (forall i nf, fs !! i = Some nf ->
        m_filtersMenu s !! S i
        = Some {| item_id := ptID_EVT_FILTERS_USER I + Z.of_nat (S i);
                  item_text := fst nf |})
  /\ (forall id,
        m_filters s !! id
        = if bool_decide (ptID_EVT_FILTERS_USER I < id
                            <= ptID_EVT_FILTERS_USER I + Z.of_nat (length fs))
          then snd <$> fs !! Z.to_nat (id - ptID_EVT_FILTERS_USER I - 1)
          else None)
  /\ (fs <> [] ->
      m_filtersMenu s !! 0%nat
      = Some {| item_id := ptID_EVT_FILTERS_NONE I;
                item_text := i18n X "amp_none"%string |}
      /\ m_viewMenu s = ViewSubMenu (i18n X "amp_filter"%string)
                        :: ViewSeparator :: view).
Proof.
  induction fs as [|[name filter] fs IH] using rev_ind.
  - cbn. repeat split; try reflexivity.
    + intros i nf H. rewrite lookup_nil in H. discriminate.
    + intros id. rewrite lookup_empty. destruct (bool_decide _); reflexivity.
    + contradiction.
    + contradiction.
  - cbn zeta in *. rewrite add_filters_snoc.
    set (s := add_filters X I (Filters_new view) fs) in *.
    destruct IH as (Hitem & Hlen & Hmenu & Hmap & Hfirst).
    assert (Hne : fs ++ [(name, filter)] <> []) by (destruct fs; discriminate).
    rewrite (bool_decide_eq_false_2 _ Hne).
    destruct (decide (fs = [])) as [Hfs|Hfs].
    + (* the first filter: the menu is created *)
      rewrite (bool_decide_eq_true_2 _ Hfs) in *. subst fs.
      cbn [negb] in Hitem. unfold AddFilter. rewrite Hitem.
      cbn [m_menuItemFilters m_filtersMenu m_filters m_viewMenu length app].
      assert (Hs : m_filters s = ∅ /\ m_viewMenu s = view) by (split; reflexivity).
      destruct Hs as [Hs Hv]. rewrite Hs, Hv.
      repeat split; try reflexivity.
      * intros i nf Hi. destruct i as [|i]; [|destruct i; discriminate].
        injection Hi as <-. reflexivity.
      * intros id. rewrite std_insert_lookup, lookup_empty.
        cbn [length app].
        destruct (decide (ptID_EVT_FILTERS_USER I + Z.of_nat 1 = id))
          as [<-|Hid].
        -- rewrite bool_decide_eq_true_2 by lia.
           replace (Z.to_nat _) with 0%nat by lia. reflexivity.
        -- rewrite bool_decide_eq_false_2 by lia. reflexivity.
    + (* a further filter *)
      rewrite (bool_decide_eq_false_2 _ Hfs) in *. cbn [negb] in Hitem.
      specialize (Hfirst Hfs). destruct Hfirst as [Hnone Hview].
      unfold AddFilter. rewrite Hitem.
      cbn [m_menuItemFilters m_filtersMenu m_filters m_viewMenu].
      rewrite !length_app, Hlen. cbn [length].
      split; [exact Hitem|]. split; [lia|].
      split; [|split; [|split]].
      * intros i nf Hi.
        destruct (decide (i < length fs)%nat) as [Hlt|Hge].
        -- rewrite lookup_app_l in Hi by exact Hlt.
           rewrite lookup_app_l by lia. apply Hmenu, Hi.
        -- rewrite lookup_app_r in Hi by lia.
           destruct (i - length fs)%nat as [|k] eqn:Hk;
             [|destruct k; discriminate].
           injection Hi as <-.
           assert (i = length fs) by lia. subst i.
           rewrite lookup_app_r by lia. rewrite Hlen.
           replace (S (length fs) - S (length fs))%nat with 0%nat by lia.
           reflexivity.
      * intros id. rewrite std_insert_lookup, Hmap.
        destruct (decide (ptID_EVT_FILTERS_USER I < id
                          <= ptID_EVT_FILTERS_USER I + Z.of_nat (length fs)))
          as [Hin|Hout].
        -- rewrite !bool_decide_eq_true_2 by lia.
           destruct (lookup_lt_is_Some_2 fs
                       (Z.to_nat (id - ptID_EVT_FILTERS_USER I - 1)))
             as [nf Hnf]; [lia|].
           rewrite Hnf. rewrite lookup_app_l by lia. rewrite Hnf. reflexivity.
        -- rewrite (bool_decide_eq_false_2 _ Hout).
           destruct (decide (ptID_EVT_FILTERS_USER I
                             + Z.of_nat (S (length fs)) = id)) as [<-|Hid].
           ++ rewrite bool_decide_eq_true_2 by lia.
              rewrite lookup_app_r by lia.
              replace (_ - _)%nat with 0%nat by lia. reflexivity.
           ++ rewrite bool_decide_eq_false_2 by lia. reflexivity.
      * rewrite lookup_app_l by lia. exact Hnone.
      * exact Hview.
Qed.

(** X20: every filter that was added can be chosen. After any number of
    calls of [AddFilter] on the constructor's state, the filters menu is
    the "none" item followed by one item per filter in the order they
    were added; choosing the item of a filter sets this filter on the list
    model, and an identifier that belongs to none of these items clears
    the filter. The sub-menu is put in front of the view menu once. *)
Theorem filters_menu_round_trip (F : Type) (X : Externals) (I : Ids)
    (view : list ViewEntry) (fs : list (string * F)) :
  let s := add_filters X I (Filters_new view) fs in
  (forall i name filter,
     fs !! i = Some (name, filter) ->
     exists item,
       m_filtersMenu s !! S i = Some item
       /\ item_text item = name
       /\ on_filters_menu s (item_id item) = [TorrentListModel_SetFilter filter])
  /\ (forall id,
        ~ (ptID_EVT_FILTERS_USER I < id
           <= ptID_EVT_FILTERS_USER I + Z.of_nat (length fs)) ->
        on_filters_menu s id = [TorrentListModel_ClearFilter])
  /\ (fs <> [] ->
      m_filtersMenu s !! 0%nat
      = Some {| item_id := ptID_EVT_FILTERS_NONE I;
                item_text := i18n X "amp_none"%string |}
      /\ length (m_filtersMenu s) = S (length fs)
      /\ m_viewMenu s = ViewSubMenu (i18n X "amp_filter"%string)
                        :: ViewSeparator :: view).
Proof.
  intros s.
  destruct (add_filters_state X I view fs)
    as (_ & Hlen & Hmenu & Hmap & Hfirst). fold s in Hlen, Hmenu, Hmap, Hfirst.
  split; [|split].
  - intros i name filter Hi. eexists. split; [apply (Hmenu i _ Hi)|].
    split; [reflexivity|]. unfold on_filters_menu. cbn [item_id].
    rewrite Hmap. apply lookup_lt_Some in Hi as Hlt.
    rewrite bool_decide_eq_true_2 by lia.
    replace (Z.to_nat _) with i by lia. rewrite Hi. reflexivity.
  - intros id Hout. unfold on_filters_menu.
    rewrite Hmap, (bool_decide_eq_false_2 _ Hout). reflexivity.
  - intros Hne. destruct (Hfirst Hne) as [Hnone Hview].
    rewrite (bool_decide_eq_false_2 _ Hne) in Hlen. auto.
Qed.

Lemma filters_menu_round_trip_witness :
  let s := add_filters Sample.X sample_ids (Filters_new [ViewSeparator])
             [("Downloading"%string, 1%nat); ("Seeding"%string, 2%nat)] in
  exists item,
    m_filtersMenu s !! 2%nat = Some item
    /\ item_text item = "Seeding"%string
    /\ on_filters_menu s (item_id item) = [TorrentListModel_SetFilter 2%nat].
Proof.
  intros s.
  exact (proj1 (filters_menu_round_trip nat Sample.X sample_ids [ViewSeparator]
                  [("Downloading"%string, 1%nat); ("Seeding"%string, 2%nat)])
           1%nat "Seeding"%string 2%nat eq_refl).
Defined.


(** ** The websocket listener *)

(** X21: the constructor of the listener stops at the first step that
    fails. It returns without an exception exactly when opening, setting
    the option, binding and listening all succeed; it binds only after
    opening and setting the option succeeded, and listens only after
    binding succeeded as well; the exception carries the message of a
    step that failed; and it never starts to accept. *)
Theorem websocket_listener_new_first_failure (a : Acceptor) :
  let '(calls, thrown) := websocket_listener_new a in
  (thrown = None <->
     open_ec a = None /\ set_option_ec a = None
     /\ bind_ec a = None /\ listen_ec a = None)
  /\ (In acceptor_bind calls <-> open_ec a = None /\ set_option_ec a = None)
  /\ (In acceptor_listen calls <->
        open_ec a = None /\ set_option_ec a = None /\ bind_ec a = None)
  /\ (forall msg, thrown = Some msg ->
        In (Some msg) [open_ec a; set_option_ec a; bind_ec a; listen_ec a])
  /\ ~ In acceptor_async_accept calls.
Proof.
  unfold websocket_listener_new.
  destruct (open_ec a) as [m1|];
    [|destruct (set_option_ec a) as [m2|];
      [|destruct (bind_ec a) as [m3|]]];
    cbn [In];
    (split; [|split; [|split; [|split]]]);
    intuition (try discriminate; try congruence).
Qed.

Lemma on_accepts_count completions :
  length (fst (on_accepts completions)) = accepted completions
  /\ snd (on_accepts completions)
     = match drop (accepted completions) completions with
       | Some msg :: _ => Some msg
       | _ => None
       end.
Proof.
  induction completions as [|[msg|] rest [IHl IHt]]; cbn [on_accepts accepted].
  - split; reflexivity.
  - split; reflexivity.
  - destruct (on_accepts rest) as [calls thrown]. cbn [fst snd length drop] in *.
    split; [f_equal; exact IHl|exact IHt].
Qed.

(** X22: the listener keeps one accept outstanding until an accept
    fails. After [run] and the handling of a sequence of completions, the
    accepts started are one more than the completions before the first
    failed one; the first failed completion throws its message, and the
    completions behind it start no accept. *)
Theorem websocket_listener_accepts_until_failure
    (completions : list (option string)) :
  let '(calls, thrown) := websocket_listener_run completions in
  calls = repeat acceptor_async_accept (S (accepted completions))
  /\ thrown = match drop (accepted completions) completions with
              | Some msg :: _ => Some msg
              | _ => None
              end
  /\ (thrown = None <-> Forall (fun c => c = None) completions).
Proof.
  unfold websocket_listener_run.
  pose proof (on_accepts_count completions) as [Hl Ht].
  destruct (on_accepts completions) as [calls thrown] eqn:Hon.
  cbn [fst snd] in *. split; [|split; [exact Ht|]].
  - cbn [repeat]. f_equal. clear Ht Hl.
    revert calls thrown Hon.
    induction completions as [|[msg|] rest IH]; intros calls thrown Hon;
      cbn [on_accepts accepted repeat] in *.
    + injection Hon as <- _. reflexivity.
    + injection Hon as <- _. reflexivity.
    + destruct (on_accepts rest) as [c t]. injection Hon as <- _.
      f_equal. eapply IH. reflexivity.
  - clear Hl Ht. revert calls thrown Hon.
    induction completions as [|[msg|] rest IH]; intros calls thrown Hon;
      cbn [on_accepts] in Hon.
    + injection Hon as _ <-. split; [constructor|reflexivity].
    + injection Hon as _ <-. split; [discriminate|].
      intros H. apply Forall_cons in H as [H _]. discriminate.
    + destruct (on_accepts rest) as [c t]. injection Hon as _ <-.
      rewrite (IH c t eq_refl). split.
      * intros H. constructor; [reflexivity|exact H].
      * intros H. apply Forall_cons in H as [_ H]. exact H.
Qed.


(** ** What reaches the session and the status bar *)

Lemma duplicate_is_error_bits (flags i : N) :
  N.testbit (N.lor flags lt.duplicate_is_error) i
  = if N.eqb i 6 then true else N.testbit flags i.
Proof.
  rewrite N.lor_spec.
  change lt.duplicate_is_error with (2 ^ 6)%N.
  rewrite N.pow2_bits_eqb, (N.eqb_sym 6 i).
  destruct (N.eqb i 6); [apply orb_true_r|apply orb_false_r].
Qed.

(** X23: every descriptor that leaves [AddTorrents] has the
    duplicate-is-error flag set and all its other flags as they came in;
    with the dialog skipped, these descriptors are what the session
    receives, one call each, in input order. *)
Theorem session_gets_duplicate_is_error (X : Externals) (cfg : Cfg.t)
    (f : MainFrame) (params : list Params.t) (added : Added) :
  AddTorrents X cfg f params = Returned added ->
  Forall2 (fun p q =>
             forall i, N.testbit (Params.flags q) i
                       = if N.eqb i 6 then true
                         else N.testbit (Params.flags p) i)
          params (params_out added)
  /\ (Cfg.skip_add_torrent_dialog cfg = true ->
      calls_out added = map Session_AddTorrent (params_out added)).
Proof.
  intros Hadd.
  destruct (AddTorrents_classifies _ _ _ _ _ Hadd) as [_ HF]. split.
  - clear Hadd. induction HF as [|p q ps qs Hpq _ IH]; [constructor|].
    destruct Hpq as (_ & _ & _ & Hflags). constructor; [|exact IH].
    intros i. rewrite Hflags. apply duplicate_is_error_bits.
  - intros Hskip. unfold AddTorrents in Hadd. destruct params as [|p ps].
    + injection Hadd as <-. reflexivity.
    + destruct (set_defaults X cfg _ (p :: ps) []) as [[qs hs]|e];
        [|discriminate].
      cbn [mbind outcome_bind] in Hadd. rewrite Hskip in Hadd.
      injection Hadd as <-. reflexivity.
Qed.

Lemma session_gets_duplicate_is_error_witness :
  let cfg := Cfg.set_skip_add_torrent_dialog true Sample.cfg in
  match AddTorrents Sample.X cfg MainFrame_new
          [Sample.magnet Sample.H1 "a"; Sample.file Sample.H2 "b"]
  with
  | Returned added =>
    calls_out added = map Session_AddTorrent (params_out added)
    /\ length (params_out added) = 2%nat
  | Thrown _ => False
  end.
Proof.
  intros cfg.
  destruct (AddTorrents Sample.X cfg MainFrame_new _) as [added|e] eqn:Hadd;
    [|discriminate Hadd].
  destruct (session_gets_duplicate_is_error Sample.X cfg MainFrame_new _ added
              Hadd) as [HF Hcalls].
  split; [exact (Hcalls eq_refl)|].
  symmetry. exact (List.Forall2_length HF).
Defined.

Lemma shown_count_app shown calls1 calls2 :
  shown_count shown (calls1 ++ calls2)
  = shown_count (shown_count shown calls1) calls2.
Proof. unfold shown_count. apply fold_left_app. Qed.

Lemma shown_count_governor X cfg ts shown :
  shown_count shown (CheckDiskSpace X cfg ts) = shown.
Proof.
  pose proof (CheckDiskSpace_governor_calls X cfg ts) as Hg.
  induction Hg as [|c l Hc _ IH]; [reflexivity|].
  cbn. destruct c; try discriminate Hc; exact IH.
Qed.

Lemma handle_shown_count X cfg f e :
  shown_count (m_torrentsCount f) (snd (handle X cfg f e))
  = m_torrentsCount (fst (handle X cfg f e)).
Proof.
  destruct e as [t|h|ts|items|evt|dlg]; cbn [handle].
  - reflexivity.
  - unfold on_torrent_removed.
    destruct (m_selection _ !! h); reflexivity.
  - unfold on_torrents_updated. cbn [fst snd].
    rewrite !shown_count_app, shown_count_governor.
    destruct (0 <? _); reflexivity.
  - unfold on_selection_changed. destruct items; reflexivity.
  - unfold on_metadata_found. cbn [fst snd].
    induction (map fst (map_to_list (m_addDialogs f))) as [|d ds IH];
      [reflexivity|exact IH].
  - reflexivity.
Qed.

(** X24: the status bar always shows the counter. If it shows the
    frame's counter before a sequence of events (as it does after the
    constructor, which shows 0), then after the calls made for these
    events the last count it was given is the frame's counter again. *)
Theorem status_bar_shows_counter (X : Externals) (cfg : Cfg.t)
    (es : list Event) (f : MainFrame) :
  shown_count (m_torrentsCount f) (snd (run X cfg f es))
  = m_torrentsCount (fst (run X cfg f es)).
Proof.
  revert f. induction es as [|e es IH]; intros f; [reflexivity|].
  cbn [run]. pose proof (handle_shown_count X cfg f e) as He.
  destruct (handle X cfg f e) as [f1 c1]. cbn [fst snd] in He.
  specialize (IH f1). destruct (run X cfg f1 es) as [f2 c2].
  cbn [fst snd] in *. rewrite shown_count_app, He. exact IH.
Qed.

Lemma show_dialogs_each params : forall f,
  map snd (omap shown_dialog (snd (show_dialogs f params))) = params
  /\ NoDup (map fst (omap shown_dialog (snd (show_dialogs f params))))
  /\ (forall d p,
        In (d, p) (omap shown_dialog (snd (show_dialogs f params))) ->
        m_addDialogs f !! d = None
        /\ m_addDialogs (fst (show_dialogs f params)) !! d = Some p).
Proof.
  induction params as [|param rest IH]; intros f; cbn [show_dialogs].
  - cbn. split; [reflexivity|split; [constructor|intros d p []]].
  - set (dlg0 := fresh (dom (m_addDialogs f))).
    assert (Hfresh : m_addDialogs f !! dlg0 = None)
      by (apply not_elem_of_dom, is_fresh).
    set (f1 := set_addDialogs (<[dlg0 := param]> (m_addDialogs f)) f).
    specialize (IH f1).
    pose proof (show_dialogs_spec rest f1) as Hspec.
    destruct (show_dialogs f1 rest) as [f2 calls].
    specialize (Hspec f2 calls eq_refl) as (_ & _ & Hsub & _).
    cbn [fst snd omap list_omap shown_dialog map] in *.
    destruct IH as (Hsnd & Hnd & Hin).
    split; [f_equal; exact Hsnd|].
    split.
    + constructor; [|exact Hnd]. intros Hd0.
      apply list_elem_of_In in Hd0.
      apply in_map_iff in Hd0 as ([d p] & Hd & Hdp).
      cbn in Hd. subst d. apply Hin in Hdp as [Hnone _].
      unfold f1 in Hnone. cbn [m_addDialogs set_addDialogs] in Hnone.
      rewrite lookup_insert_eq in Hnone. discriminate.
    + intros d p [[= <- <-]|Hdp].
      * split; [exact Hfresh|].
        eapply lookup_weaken; [|exact Hsub]. apply lookup_insert_eq.
      * apply Hin in Hdp as [Hnone Hsome]. split; [|exact Hsome].
        unfold f1 in Hnone. cbn [m_addDialogs set_addDialogs] in Hnone.
        destruct (decide (dlg0 = d)) as [<-|Hne].
        -- rewrite lookup_insert_eq in Hnone. discriminate.
        -- rewrite lookup_insert_ne in Hnone by exact Hne. exact Hnone.
Qed.

(** X25: every descriptor gets a dialog of its own. When the dialog is
    not skipped, the dialogs that [AddTorrents] shows are, in order, built
    for the descriptors of the batch in order; their addresses are
    pairwise distinct, none of them was open before, and each is
    remembered in [m_addDialogs] with its descriptor. *)
Theorem each_descriptor_own_dialog (X : Externals) (cfg : Cfg.t)
    (f : MainFrame) (params : list Params.t) (added : Added) :
  Cfg.skip_add_torrent_dialog cfg = false ->
  AddTorrents X cfg f params = Returned added ->
  let shown := omap shown_dialog (calls_out added) in
  map snd shown = params_out added
  /\ NoDup (map fst shown)
  /\ (forall dlg p, In (dlg, p) shown ->
        m_addDialogs f !! dlg = None
        /\ m_addDialogs (frame added) !! dlg = Some p).
Proof.
  intros Hskip Hadd shown. unfold shown. clear shown.
  unfold AddTorrents in Hadd. destruct params as [|p0 ps].
  - injection Hadd as <-. cbn.
    split; [reflexivity|split; [constructor|intros dlg p []]].
  - destruct (set_defaults X cfg _ (p0 :: ps) []) as [[qs hs]|e];
      [|discriminate].
    cbn [mbind outcome_bind] in Hadd. rewrite Hskip in Hadd.
    pose proof (show_dialogs_each qs f) as Heach.
    destruct (show_dialogs f qs) as [f1 calls].
    injection Hadd as <-. cbn [calls_out params_out frame fst snd] in *.
    rewrite omap_app. cbn [omap list_omap shown_dialog].
    rewrite app_nil_r. exact Heach.
Qed.

Lemma each_descriptor_own_dialog_witness :
  let p := Sample.magnet Sample.H1 "a" in
  match AddTorrents Sample.X Sample.cfg MainFrame_new [p; p] with
  | Returned added =>
    map snd (omap shown_dialog (calls_out added)) = params_out added
    /\ NoDup (map fst (omap shown_dialog (calls_out added)))
  | Thrown _ => False
  end.
Proof.
  intros p.
  destruct (AddTorrents Sample.X Sample.cfg MainFrame_new [p; p])
    as [added|e] eqn:Hadd; [|discriminate Hadd].
  destruct (each_descriptor_own_dialog Sample.X Sample.cfg MainFrame_new
              [p; p] added eq_refl Hadd) as (Hs & Hn & _).
  split; [exact Hs|exact Hn].
Defined.


(** ** A search that throws

    A pattern that the constructor accepts can still make the pass raise,
    when the search throws; such a descriptor is outside the batches for
    which the pass is shown to return. *)
Example search_failure_raises :
  let cfg := Cfg.set_labels [Sample.label 7 "ubuntu" "/iso"] Sample.cfg in
  let p := Sample.magnet Sample.H1 "ubuntu-24.04-desktop-amd64.iso" in
  regex_ctor X_limited "ubuntu" = Some "ubuntu"%string
  /\ AddTorrents X_limited cfg MainFrame_new [p] = Thrown regex_error
  /\ batch_ok X_limited (Cfg.GetLabels cfg) [p] = false
  /\ exists r, AddTorrents Sample.X cfg MainFrame_new [p] = Returned r.
Proof.
  intros cfg p. split; [reflexivity|]. split; [vm_compute; reflexivity|].
  split; [vm_compute; reflexivity|].
  apply AddTorrents_returns. vm_compute. reflexivity.
Qed.
